(** * Form1Analysis: the archive loader (import_zip.py) and the ROE query
      (analyse_roe.py), embedded in Rocq.

    The loader is a top-level Python script: two nested [for] loops, a
    per-file [try]/[except Exception], and calls into os, dbfread, pandas
    and SQLAlchemy.  The embedding keeps that shape:

    - the file system and the legacy files are read through a [World]
      record of oracles (what [os.path.exists], [os.listdir] and
      [dbfread.DBF] answer for a path);
    - the script runs in a small state-and-exception monad [M] whose state
      is the destination store and the text printed so far;
    - a pandas frame is a list of column labels with rows of cells, and the
      three frame operations the script uses are written out on it;
    - the destination store is a finite map from table names to tables;
      SQLite matches names without regard to letter case, so a table is
      kept under the lower-case form of its name.

    Strings are byte strings and [str.lower] acts on the ASCII letters;
    whether standard output can encode a printed line that carries a file
    name, and whether the database library can store the rows of a frame,
    are part of the [World].  Wall-clock times are left out of the printed
    messages. *)

From stdpp Require Import base option list strings gmap pretty sorting.
From Stdlib Require Import ZArith QArith Lia Ascii.

Open Scope string_scope.
Open Scope list_scope.
Open Scope Z_scope.

(** ** Python string helpers *)

Module PyStr.

(** [str.lower] on one ASCII character. *)
Definition lower_ascii (c : ascii) : ascii :=
  let n := N_of_ascii c in
  if ((65 <=? n) && (n <=? 90))%N then ascii_of_N (n + 32) else c.

(** [str.lower]. *)
Fixpoint lower (s : string) : string :=
  match s with
  | EmptyString => EmptyString
  | String c s' => String (lower_ascii c) (lower s')
  end.

(** [s.endswith(suffix)]. *)
Definition endswith (suffix s : string) : bool :=
  String.prefix (String.rev suffix) (String.rev s).

Fixpoint rfind_from (c : ascii) (s : string) (i last : Z) : Z :=
  match s with
  | EmptyString => last
  | String a s' => rfind_from c s' (i + 1) (if Ascii.eqb a c then i else last)
  end.

(** [s.rfind(c)]: the highest index of [c] in [s], or -1. *)
Definition rfind (c : ascii) (s : string) : Z := rfind_from c s 0 (-1).

(** [s[i:j]] for non-negative [i] and [j]. *)
Definition slice (i j : Z) (s : string) : string :=
  String.substring (Z.to_nat i) (Z.to_nat (j - i)) s.

(** [s[i:]]. *)
Definition slice_from (i : Z) (s : string) : string :=
  String.substring (Z.to_nat i) (String.length s - Z.to_nat i) s.

Definition all_dots (s : string) : bool :=
  forallb (Ascii.eqb ".") (String.list_ascii_of_string s).

(** [os.path.splitext] of ntpath: [genericpath._splitext(p, '\\', '/', '.')].
    The extension starts at the last dot, provided that dot comes after the
    last separator and some character between the two is not a dot. *)
Definition splitext (p : string) : string * string :=
  let sepIndex := Z.max (rfind "\" p) (rfind "/" p) in
  let dotIndex := rfind "." p in
  if (sepIndex <? dotIndex) && negb (all_dots (slice (sepIndex + 1) dotIndex p))
  then (slice 0 dotIndex p, slice_from dotIndex p)
  else (p, "").

(** [os.path.join(a, b)] of ntpath for a directory [a] that does not end in
    a separator and a relative component [b] without a drive. *)
Definition path_join (a b : string) : string := a +:+ "\" +:+ b.

End PyStr.

Import PyStr.

(** ** Records and frames *)

(** A cell of a legacy record or of a frame.  [VNull] is the missing value. *)
Inductive value : Type :=
  | VInt (z : Z)
  | VText (s : string)
  | VNull.

#[global] Instance value_eq_dec : EqDecision value.
Proof. solve_decision. Defined.

(** One record as [dbfread] yields it: a mapping from field name to value,
    in field order.  A written row has the same shape. *)
Definition record : Type := list (string * value).

(** [r.get(k)] *)
Fixpoint dict_get (k : string) (r : record) : option value :=
  match r with
  | [] => None
  | (k', v) :: r' => if String.eqb k' k then Some v else dict_get k r'
  end.

Record DataFrame : Type := mkFrame {
  columns : list string;
  data : list (list value)
}.

#[global] Instance DataFrame_eq_dec : EqDecision DataFrame.
Proof. solve_decision. Defined.

Module Frame.

(** Labels of [ks] not yet in [seen] are added at the end, in order. *)
Definition add_labels (seen ks : list string) : list string :=
  fold_left (fun acc k => if bool_decide (k ∈ acc) then acc else acc ++ [k]) ks seen.

(** [pd.DataFrame(records)]: the columns are the field names in order of
    first appearance, each record gives one row, an absent field is the
    missing value.  The cells are kept as they were read: the change of
    type that pandas makes in a column with missing cells is left out. *)
Definition of_records (recs : list record) : DataFrame :=
  let cols := fold_left (fun acc r => add_labels acc (r.*1)) recs [] in
  {| columns := cols;
     data := map (fun r => map (fun c => default VNull (dict_get c r)) cols) recs |}.

(** [df.empty]: some axis has length zero. *)
Definition empty (df : DataFrame) : bool :=
  (Nat.eqb (length (columns df)) 0) || (Nat.eqb (length (data df)) 0).

(** [df[name] = v] for a scalar [v]: an existing column of that label is
    overwritten in every row, otherwise a new last column is added. *)
Definition set_column (name : string) (v : value) (df : DataFrame) : DataFrame :=
  if bool_decide (name ∈ columns df)
  then {| columns := columns df;
          data := map (fun row =>
                    zip_with (fun c x => if String.eqb c name then v else x)
                             (columns df) row) (data df) |}
  else {| columns := columns df ++ [name];
          data := map (fun row => row ++ [v]) (data df) |}.

(** [df.columns = df.columns.str.lower()] *)
Definition lower_columns (df : DataFrame) : DataFrame :=
  {| columns := map lower (columns df); data := data df |}.

(** The rows of a frame as label/value records, the form in which they are
    inserted. *)
Definition records (df : DataFrame) : list record :=
  map (fun row => zip (columns df) row) (data df).

End Frame.

(** ** The destination store *)

(** A table: its column names, fixed when it is created, and its rows.
    The store is a [gmap] from the lower-case form of a table name to the
    table. *)
Record Table : Type := mkTable {
  schema : list string;
  rows : list record
}.

(** The exceptions of class [Exception] that the calls of the script raise. *)
Inductive exn : Type :=
  | OSError (path : string)
  | DBFError (path : string)
  | StoreUnavailable (uri : string)
  | DuplicateColumnName (table : string)
  | NoSuchColumn (table : string)
  | UnicodeEncodeError
  | DataError (text : string).

(** How the write of a frame can fail on its cells: the library refuses the
    whole frame before it touches the store (a column of a type it does not
    support), or the insert raises at some row (an integer that does not
    fit in 64 bits, a full disk) and the [kept] rows before it stay in the
    table. *)
Inductive Fault : Type :=
  | RefusedWhole (e : exn)
  | FailsAfter (kept : nat) (e : exn).

#[global] Instance exn_eq_dec : EqDecision exn.
Proof. solve_decision. Defined.

(** The engine returned by [create_engine]: only the URL is recorded, no
    connection is made until the engine is first used. *)
Record Engine : Type := mkEngine { url : string }.

Definition create_engine (uri : string) : Engine := {| url := uri |}.

Module Sql.

(** Number of rows of the table kept under [name] (zero when there is no
    such table). *)
Definition row_count (st : gmap string Table) (name : string) : nat :=
  match st !! name with
  | Some t => length (rows t)
  | None => 0%nat
  end.

Definition table_rows (st : gmap string Table) (name : string) : list record :=
  match st !! name with
  | Some t => rows t
  | None => []
  end.

Definition table_schema (st : gmap string Table) (name : string) : option (list string) :=
  schema <$> st !! name.

(** Whether every column of the frame is a column of the table; SQLite
    compares identifiers without regard to letter case. *)
Definition columns_known (cols sch : list string) : bool :=
  forallb (fun c => bool_decide (lower c ∈ map lower sch)) cols.

(** The rows of the frame that reach the table, and the exception that
    stops the insert, if any. *)
Definition inserted (fault : option Fault) (df : DataFrame) : list record * option exn :=
  match fault with
  | Some (FailsAfter kept e) => (take kept (Frame.records df), Some e)
  | _ => (Frame.records df, None)
  end.

(** [df.to_sql(name, con, if_exists='append', index=False)] on a
    file-backed SQLite store whose tables carry no constraints, as those the
    loader creates.  The store is keyed by table names in lower case, since
    SQLite compares identifiers without regard to letter case.  The call
    connects first, so it raises when the store cannot be opened.  The
    library can refuse the whole frame ([fault]).  A table holds no two
    columns of one name, so a frame with a repeated label is refused.  A
    missing table is created with the frame's columns; an existing table is
    appended to when it has every column of the frame and the write is
    refused otherwise.  The rows are inserted in order; when the insert
    raises at a row ([fault]), the rows before it stay.  The result is the
    exception, if any, and the store the call leaves. *)
Definition to_sql (openable : bool) (fault : option Fault) (con : Engine)
    (name : string) (df : DataFrame) (st : gmap string Table)
    : (exn + unit) * gmap string Table :=
  let append_to (sch : list string) (old : list record) :=
    (match (inserted fault df).2 with Some e => inl e | None => inr tt end,
     <[lower name := {| schema := sch; rows := old ++ (inserted fault df).1 |}]> st) in
  if negb openable then (inl (StoreUnavailable (url con)), st)
  else match fault with
       | Some (RefusedWhole e) => (inl e, st)
       | _ =>
         if negb (bool_decide (NoDup (map lower (columns df))))
         then (inl (DuplicateColumnName name), st)
         else match st !! lower name with
              | None => append_to (columns df) []
              | Some t =>
                  if columns_known (columns df) (schema t)
                  then append_to (schema t) (rows t)
                  else (inl (NoSuchColumn name), st)
              end
       end.

End Sql.

(** ** Printed messages *)

Inductive Msg : Type :=
  | MStarting
  | MSourceDirectory (dir : string)
  | MTargetDatabase (file : string)
  | MProcessingYear (year : Z)
  | MWarnDirNotFound (year : Z) (dir : string)
  | MWarnNoDbf (dir : string)
  | MFound (n : nat)
  | MReading (filename : string)
  | MInfoEmpty (filename : string)
  | MLoading (table : string)
  | MError (filename : string) (year : Z) (e : exn)
  | MFinishedYear (year : Z)
  | MRule
  | MComplete
  | MTotalTime
  | MDataIn (file : string).

#[global] Instance Msg_eq_dec : EqDecision Msg.
Proof. solve_decision. Defined.

(** The lines whose text comes from a file name or an exception; the other
    lines are fixed ASCII text, numbers and the configured ASCII paths, which
    every encoding of standard output can write. *)
Definition names_a_file (m : Msg) : bool :=
  match m with
  | MReading _ | MInfoEmpty _ | MLoading _ | MError _ _ _ => true
  | _ => false
  end.

(** ** The environment of a run *)

(** What the file system, the legacy files, standard output and the
    database library answer.  [None] stands for the call raising. *)
Record World : Type := mkWorld {
  path_exists : string -> bool;                  (* os.path.exists *)
  listdir : string -> option (list string);      (* os.listdir *)
  read_dbf : string -> option (list record);     (* the records of DBF(path) *)
  store_openable : bool;                         (* can the database file be opened *)
  stdout_encodes : Msg -> bool;                  (* can a line naming a file be printed *)
  insert_fault : string -> DataFrame -> option Fault  (* does the write of a frame fail *)
}.

(** ** The script monad: store and output as state, exceptions as results *)

Record LoaderState : Type := mkState {
  db : gmap string Table;
  out : list Msg
}.

Definition M (A : Type) : Type := LoaderState -> (exn + A) * LoaderState.

#[global] Instance M_ret : MRet M := fun A a s => (inr a, s).

#[global] Instance M_bind : MBind M := fun A B f m s =>
  match m s with
  | (inr a, s') => f a s'
  | (inl e, s') => (inl e, s')
  end.

Definition raise {A} (e : exn) : M A := fun s => (inl e, s).

(** [print(...)]: the line is written to standard output, which raises
    when it cannot encode a line that names a file (lines 61, 69, 78 and
    92). *)
Definition print (encodes : Msg -> bool) (m : Msg) : M unit :=
  fun s => if names_a_file m && negb (encodes m)
           then (inl UnicodeEncodeError, s)
           else (inr tt, {| db := db s; out := out s ++ [m] |}).

(** [try: body except Exception as e: handler(e)] *)
Definition try_except (body : M unit) (handler : exn -> M unit) : M unit :=
  fun s =>
    match body s with
    | (inr tt, s') => (inr tt, s')
    | (inl e, s') => handler e s'
    end.

(** [for x in l: body(x)] *)
Fixpoint for_each {A} (body : A -> M unit) (l : list A) : M unit :=
  match l with
  | [] => mret tt
  | x :: l' => body x ;; for_each body l'
  end.

(** ** import_zip.py *)

Module Loader.

Definition BASE_DATA_DIR : string := "L:\My Drive\FERC Form 1".
Definition YEARS_TO_PROCESS : list Z := [2018; 2019; 2020].
Definition DATABASE_FILE : string := "ferc_form1.db".
Definition db_uri : string := "sqlite:///" +:+ DATABASE_FILE.
Definition engine : Engine := create_engine db_uri.

Section Run.

Variable w : World.

Definition os_listdir (path : string) : M (list string) :=
  fun s => match listdir w path with
           | Some l => (inr l, s)
           | None => (inl (OSError path), s)
           end.

Definition DBF (path : string) : M (list record) :=
  fun s => match read_dbf w path with
           | Some recs => (inr recs, s)
           | None => (inl (DBFError path), s)
           end.

Definition to_sql (df : DataFrame) (name : string) (con : Engine) : M unit :=
  fun s =>
    let r := Sql.to_sql (store_openable w) (insert_fault w name df) con name df (db s) in
    (r.1, {| db := r.2; out := out s |}).

(** [os.path.join(BASE_DATA_DIR, f'f1_{year}', 'FORM1', 'working')] *)
Definition working_dir_of (year : Z) : string :=
  path_join (path_join (path_join BASE_DATA_DIR ("f1_" +:+ pretty year)) "FORM1") "working".

(** The body of the [try] block, lines 56 to 89. *)
Definition file_body (year : Z) (working_dir dbf_filename : string) : M unit :=
  let dbf_path := path_join working_dir dbf_filename in
  let table_name := lower (fst (splitext dbf_filename)) in
  print (stdout_encodes w) (MReading dbf_filename) ;;
  recs ← DBF dbf_path ;
  let df := Frame.of_records recs in
  if Frame.empty df then
    print (stdout_encodes w) (MInfoEmpty dbf_filename)
  else
    let df := Frame.set_column "year" (VInt year) df in
    let df := Frame.lower_columns df in
    print (stdout_encodes w) (MLoading table_name) ;;
    to_sql df table_name engine.

(** One iteration of the inner loop, lines 54 to 92. *)
Definition process_file (year : Z) (working_dir dbf_filename : string) : M unit :=
  try_except (file_body year working_dir dbf_filename)
             (fun e => print (stdout_encodes w) (MError dbf_filename year e)).

Definition is_dbf (f : string) : bool := endswith ".dbf" (lower f).

(** One iteration of the outer loop, lines 32 to 95. *)
Definition process_year (year : Z) : M unit :=
  print (stdout_encodes w) (MProcessingYear year) ;;
  let working_dir := working_dir_of year in
  if negb (path_exists w working_dir) then
    print (stdout_encodes w) (MWarnDirNotFound year working_dir)
  else
    entries ← os_listdir working_dir ;
    let dbf_files := List.filter is_dbf entries in
    if Nat.eqb (length dbf_files) 0 then
      print (stdout_encodes w) (MWarnNoDbf working_dir)
    else
      print (stdout_encodes w) (MFound (length dbf_files)) ;;
      for_each (process_file year working_dir) dbf_files ;;
      print (stdout_encodes w) (MFinishedYear year).

(** The whole script for a list of years. *)
Definition run (years : list Z) : M unit :=
  print (stdout_encodes w) MStarting ;;
  print (stdout_encodes w) (MSourceDirectory BASE_DATA_DIR) ;;
  print (stdout_encodes w) (MTargetDatabase DATABASE_FILE) ;;
  for_each process_year years ;;
  print (stdout_encodes w) MRule ;;
  print (stdout_encodes w) MComplete ;;
  print (stdout_encodes w) MTotalTime ;;
  print (stdout_encodes w) (MDataIn DATABASE_FILE) ;;
  print (stdout_encodes w) MRule.

Definition main : M unit := run YEARS_TO_PROCESS.

End Run.

End Loader.

(** ** analyse_roe.py: the last SELECT of [roe_query] *)

Module Roe.

(** The order of SQLite on the values that occur in the sort columns:
    NULL first, then numbers, then text in binary collation. *)
Definition value_leb (a b : value) : bool :=
  match a, b with
  | VNull, _ => true
  | _, VNull => false
  | VInt x, VInt y => (x <=? y)%Z
  | VInt _, VText _ => true
  | VText _, VInt _ => false
  | VText x, VText y => String.leb x y
  end.

Section Query.

(** The REAL values and their arithmetic are parameters: [gt] is [>],
    [div] and [mul] are [/] and [*], which give NULL where SQLite does
    (a zero divisor, a result that is not a number). *)
Context {num : Type}.
Variables (zero hundred : num).
Variable gt : num -> num -> bool.
Variables (div mul : num -> num -> option num).

(** A row of the CTE [LaggedEquity]; [None] is NULL. *)
Record LaggedEquityRow : Type := mkLagged {
  respondent : value;
  respondent_name : value;
  year : value;
  net_income : option num;
  total_equity : option num;
  prev_year_equity : option num
}.

(** A result row: the six columns of [LaggedEquity] and the computed one. *)
Record RoeRow : Type := mkRoe {
  source : LaggedEquityRow;
  return_on_equity_pct : option num
}.

(** A comparison with NULL is NULL. *)
Definition sql_gt (a b : option num) : option bool :=
  match a, b with
  | Some x, Some y => Some (gt x y)
  | _, _ => None
  end.

Definition sql_div (a b : option num) : option num :=
  match a, b with
  | Some x, Some y => div x y
  | _, _ => None
  end.

Definition sql_mul (a b : option num) : option num :=
  match a, b with
  | Some x, Some y => mul x y
  | _, _ => None
  end.

(** [CASE WHEN c THEN a ELSE b END]: [a] only when [c] is true. *)
Definition case_when (c : option bool) (a b : option num) : option num :=
  match c with
  | Some true => a
  | _ => b
  end.

(** [CASE WHEN total_equity > 0 THEN (net_income / total_equity) * 100
     ELSE NULL END] *)
Definition roe_expression (r : LaggedEquityRow) : option num :=
  case_when (sql_gt (total_equity r) (Some zero))
            (sql_mul (sql_div (net_income r) (total_equity r)) (Some hundred))
            None.

Definition select_row (r : LaggedEquityRow) : RoeRow :=
  {| source := r; return_on_equity_pct := roe_expression r |}.

(** [ORDER BY respondent_name, year] *)
Definition row_leb (a b : RoeRow) : bool :=
  if bool_decide (respondent_name (source a) = respondent_name (source b))
  then value_leb (year (source a)) (year (source b))
  else value_leb (respondent_name (source a)) (respondent_name (source b)).

Fixpoint insert_sorted (x : RoeRow) (l : list RoeRow) : list RoeRow :=
  match l with
  | [] => [x]
  | y :: l' => if row_leb x y then x :: l else y :: insert_sorted x l'
  end.

Definition order_by (l : list RoeRow) : list RoeRow :=
  foldr insert_sorted [] l.

(** The final SELECT over the rows of [LaggedEquity]: the WHERE clause
    names the result column, which SQLite resolves to its expression. *)
Definition roe_query (lagged : list LaggedEquityRow) : list RoeRow :=
  order_by
    (map select_row
       (List.filter (fun r => bool_decide (is_Some (roe_expression r))) lagged)).

End Query.

End Roe.

(** * Vocabulary of the statements *)

(** The state of a first invocation: an empty store, nothing printed. *)
Definition start_state : LoaderState := {| db := ∅; out := [] |}.

(** The frame that [file_body] hands to [to_sql] for a file of year
    [year] read as [df]: lines 73 and 76 in that order. *)
Definition written_frame (year : Z) (df : DataFrame) : DataFrame :=
  Frame.lower_columns (Frame.set_column "year" (VInt year) df).

(** The other order of the two steps: lower the labels, then tag. *)
Definition lowered_then_tagged (year : Z) (df : DataFrame) : DataFrame :=
  Frame.set_column "year" (VInt year) (Frame.lower_columns df).

(** Every row has one cell per column. *)
Definition rectangular (df : DataFrame) : Prop :=
  Forall (fun row => length row = length (columns df)) (data df).

(** A field name is in lower case when [str.lower] leaves it alone. *)
Definition is_lowercase (s : string) : Prop := lower s = s.

(** The state in which a later invocation of the script starts: the store
    is the file left on disk, nothing has been printed yet. *)
Definition next_invocation (s : LoaderState) : LoaderState :=
  {| db := db s; out := [] |}.

(** Every table of [st] is still a table of [st'], with the same columns. *)
Definition keeps_tables (st st' : gmap string Table) : Prop :=
  forall t sch, Sql.table_schema st t = Some sch -> Sql.table_schema st' t = Some sch.

(** Every table of [st'] holds the rows it held in [st], in place, followed
    by new rows that satisfy [P]. *)
Definition adds_rows (P : string -> record -> Prop) (st st' : gmap string Table) : Prop :=
  forall t, exists new,
    Sql.table_rows st' t = Sql.table_rows st t ++ new /\ Forall (P t) new.

(** [m] relates the store it starts from to the store it leaves by [R]. *)
Definition lifts {A} (R : gmap string Table -> gmap string Table -> Prop) (m : M A) : Prop :=
  forall s, R (db s) (db (m s).2).

(** The files that the loop of a year visits. *)
Definition visited (w : World) (year : Z) (f : string) : Prop :=
  path_exists w (Loader.working_dir_of year) = true /\
  exists entries, listdir w (Loader.working_dir_of year) = Some entries /\
                  f ∈ List.filter Loader.is_dbf entries.

(** A row [r] of table [t] comes from file [f] of the directory [dir] of
    year [year]: the file was read, is named after the table, and [r] is a
    row of the frame written for it. *)
Definition ingested_from (w : World) (year : Z) (dir f : string) (t : string) (r : record) : Prop :=
  exists recs,
    read_dbf w (path_join dir f) = Some recs /\
    t = lower (splitext f).1 /\
    NoDup (columns (written_frame year (Frame.of_records recs))) /\
    r ∈ Frame.records (written_frame year (Frame.of_records recs)).

(** [m] replays: started from a store [b] that already has every table
    that [m] leaves behind when started from [a], with the same columns,
    [m] ends the same way and adds as many rows to each table as from [a]. *)
Definition replays {A} (m : M A) : Prop :=
  forall a b, keeps_tables (db (m a).2) (db b) ->
    (m b).1 = (m a).1 /\
    forall t, (Sql.row_count (db (m b).2) t + Sql.row_count (db a) t =
               Sql.row_count (db (m a).2) t + Sql.row_count (db b) t)%nat.

(** [m] never removes a table or changes its columns, and replays. *)
Definition tame {A} (m : M A) : Prop := lifts keeps_tables m /\ replays m.

(** A step that only reads the world or prints. *)
Definition store_blind {A} (m : M A) : Prop :=
  forall s, db (m s).2 = db s /\ forall s', (m s').1 = (m s).1.

(** From a given store, [m] has one result, one final store and one
    sequence of messages, which it appends to whatever was printed before. *)
Definition writer {A} (m : M A) : Prop :=
  forall st, exists r d msgs, forall o,
    m {| db := st; out := o |} = (r, {| db := d; out := o ++ msgs |}).

(** * Concrete archives and rows *)

Module Sample.

Definition dir2019 : string := Loader.working_dir_of 2019.
Definition dir2020 : string := Loader.working_dir_of 2020.

Definition f1_1_2019 : list record :=
  [ [("RESPONDENT", VInt 1); ("ROW_NUMBER", VInt 16)];
    [("RESPONDENT", VInt 2); ("ROW_NUMBER", VInt 16)];
    [("RESPONDENT", VInt 3); ("ROW_NUMBER", VInt 78)] ].

Definition f1_1_2020 : list record :=
  [ [("RESPONDENT", VInt 1); ("ROW_NUMBER", VInt 16)];
    [("RESPONDENT", VInt 2); ("ROW_NUMBER", VInt 78)] ].

(** Two years on disk (2018 is missing).  2019 holds a good file, a file
    that cannot be read, a file without records and a text file; 2020
    holds the same table again. *)
Definition world : World := {|
  path_exists p := bool_decide (p = dir2019) || bool_decide (p = dir2020);
  listdir p :=
    if bool_decide (p = dir2019) then Some ["f1_1.dbf"; "BROKEN.DBF"; "notes.txt"; "f1_2.dbf"]
    else if bool_decide (p = dir2020) then Some ["F1_1.DBF"]
    else None;
  read_dbf p :=
    if bool_decide (p = path_join dir2019 "f1_1.dbf") then Some f1_1_2019
    else if bool_decide (p = path_join dir2019 "f1_2.dbf") then Some []
    else if bool_decide (p = path_join dir2020 "F1_1.DBF") then Some f1_1_2020
    else None;
  store_openable := true;
  stdout_encodes _ := true;
  insert_fault _ _ := None
|}.

(** The same archive with a store that cannot be opened. *)
Definition world_locked : World := {|
  path_exists := path_exists world;
  listdir := listdir world;
  read_dbf := read_dbf world;
  store_openable := false;
  stdout_encodes _ := true;
  insert_fault _ _ := None
|}.

(** A legacy file with a field [YEAR], and one with a field [year]. *)
Definition upper_year : list record :=
  [ [("ID", VInt 1); ("YEAR", VInt 1999)]; [("ID", VInt 2); ("YEAR", VInt 2000)] ].

Definition lower_year : list record :=
  [ [("ID", VInt 1); ("year", VInt 1999)]; [("ID", VInt 2); ("year", VInt 2000)] ].


End Sample.

(** The query on three rows, with rationals standing for REAL: the row
    with negative equity and the row with NULL equity are left out. *)
Module RoeSample.

Definition qdiv (x y : Q) : option Q :=
  if Qeq_bool y 0 then None else Some (Qred (x / y)).
Definition qmul (x y : Q) : option Q := Some (Qred (x * y)).
Definition qgt (x y : Q) : bool := negb (Qle_bool x y).

Definition lagged : list (@Roe.LaggedEquityRow Q) :=
  [ Roe.mkLagged (VInt 7) (VText "Beta Power") (VInt 2019) (Some 10%Q) (Some 200%Q) (Some 0%Q);
    Roe.mkLagged (VInt 3) (VText "Alpha Light") (VInt 2019) (Some 4%Q) (Some (-50)%Q) (Some 0%Q);
    Roe.mkLagged (VInt 7) (VText "Beta Power") (VInt 2018) (Some 30%Q) (Some 100%Q) (Some 0%Q);
    Roe.mkLagged (VInt 9) (VText "Gamma Gas") (VInt 2019) (Some 5%Q) None (Some 0%Q) ].

End RoeSample.

(** Further archives: a year whose directory holds no legacy file, and a
    year whose directory exists but cannot be listed. *)
Module Sample2.

Definition dir2021 : string := Loader.working_dir_of 2021.
Definition dir2022 : string := Loader.working_dir_of 2022.

Definition world : World := {|
  path_exists p := path_exists Sample.world p || bool_decide (p = dir2021)
                   || bool_decide (p = dir2022);
  listdir p :=
    if bool_decide (p = dir2021) then Some ["readme.txt"; "f1_1.dbf.bak"]
    else if bool_decide (p = dir2022) then None
    else listdir Sample.world p;
  read_dbf := read_dbf Sample.world;
  store_openable := true;
  stdout_encodes _ := true;
  insert_fault _ _ := None
|}.

(** The archive of [Sample] with a database library whose insert into
    [f1_1] raises at the second row, after the first row is in the table. *)
Definition world_partial : World := {|
  path_exists := path_exists Sample.world;
  listdir := listdir Sample.world;
  read_dbf := read_dbf Sample.world;
  store_openable := true;
  stdout_encodes _ := true;
  insert_fault name _ :=
    if bool_decide (name = "f1_1")
    then Some (FailsAfter 1 (DataError "Python int too large to convert to SQLite INTEGER"))
    else None
|}.

(** The archive of [Sample] with a standard output that cannot encode the
    lines that carry the name of the second file of 2019. *)
Definition world_console : World := {|
  path_exists := path_exists Sample.world;
  listdir := listdir Sample.world;
  read_dbf := read_dbf Sample.world;
  store_openable := true;
  stdout_encodes m :=
    match m with
    | MReading f | MInfoEmpty f | MError f _ _ => negb (bool_decide (f = "BROKEN.DBF"))
    | _ => true
    end;
  insert_fault _ _ := None
|}.


End Sample2.

(** The shape of a table that the loader has written: a [year] column,
    distinct column names in lower case, and rows whose fields are columns
    of the table and whose [year] is an integer. *)
Definition loader_table (tbl : Table) : Prop :=
  "year" ∈ schema tbl /\
  NoDup (schema tbl) /\
  Forall is_lowercase (schema tbl) /\
  Forall (fun r => r.*1 ⊆ schema tbl /\ exists y, dict_get "year" r = Some (VInt y))
         (rows tbl).

(** A store in which every table has a name in lower case and that shape. *)
Definition loader_store (st : gmap string Table) : Prop :=
  forall t tbl, st !! t = Some tbl -> is_lowercase t /\ loader_table tbl.

(** The files that a stretch of output announces as being read. *)
Definition files_read (msgs : list Msg) : list string :=
  flat_map (fun m => match m with MReading f => [f] | _ => [] end) msgs.

(** ** analyse_roe.py: [show_top_performers] *)

Module Analysis.

(** What the function prints.  The table is kept as its rows, name and
    ROE of each company; the rendering of the numbers as text is left out. *)
Inductive Printed {num : Type} : Type :=
  | PTopHeader (top_n : nat) (analysis_year : Z)
  | PNoData (analysis_year : Z)
  | PTable (rows : list (value * option num)).

Section TopPerformers.

Context {num : Type}.
Variables (zero fifty : num).
Variable gt : num -> num -> bool.

(** [sort_values('return_on_equity_pct', ascending=False)]: pandas fixes
    the result only up to the order of rows with equal keys, so the sort is
    a parameter; what it guarantees is stated where it is used. *)
Variable sort_values_desc : list (@Roe.RoeRow num) -> list (@Roe.RoeRow num).

(** [roe > c] and [roe < c] on a cell; a missing value compares false. *)
Definition roe_gt (r : @Roe.RoeRow num) (c : num) : bool :=
  match Roe.return_on_equity_pct r with
  | Some x => gt x c
  | None => false
  end.

Definition roe_lt (r : @Roe.RoeRow num) (c : num) : bool :=
  match Roe.return_on_equity_pct r with
  | Some x => gt c x
  | None => false
  end.

(** [df[df['year'] == analysis_year]] *)
Definition year_df (df : list (@Roe.RoeRow num)) (analysis_year : Z) : list Roe.RoeRow :=
  List.filter (fun r => bool_decide (Roe.year (Roe.source r) = VInt analysis_year)) df.

(** [year_df[(roe > 0) & (roe < 50)]] *)
Definition reasonable_roe_df (df : list (@Roe.RoeRow num)) (analysis_year : Z)
    : list Roe.RoeRow :=
  List.filter (fun r => roe_gt r zero && roe_lt r fifty) (year_df df analysis_year).

(** [reasonable_roe_df.sort_values(...).head(top_n)] for [top_n >= 0] *)
Definition top_df (df : list (@Roe.RoeRow num)) (analysis_year : Z) (top_n : nat)
    : list Roe.RoeRow :=
  take top_n (sort_values_desc (reasonable_roe_df df analysis_year)).

Definition show_top_performers (df : list (@Roe.RoeRow num)) (analysis_year : Z)
    (top_n : nat) : list (@Printed num) :=
  PTopHeader top_n analysis_year ::
  match top_df df analysis_year top_n with
  | [] => [PNoData analysis_year]
  | rows =>
      [PTable (map (fun r => (Roe.respondent_name (Roe.source r),
                              Roe.return_on_equity_pct r)) rows)]
  end.

(** Row [a] comes no later than row [b] in descending order of ROE, with
    missing values last. *)
Definition roe_geb (a b : @Roe.RoeRow num) : bool :=
  match Roe.return_on_equity_pct a, Roe.return_on_equity_pct b with
  | Some x, Some y => negb (gt y x)
  | _, None => true
  | None, Some _ => false
  end.

End TopPerformers.

End Analysis.

(** Rows over the rationals and a sort for them. *)
Module AnalysisSample.

Definition row (name : string) (year : Z) (roe : option Q) : @Roe.RoeRow Q :=
  {| Roe.source := Roe.mkLagged (VInt 0) (VText name) (VInt year) None None None;
     Roe.return_on_equity_pct := roe |}.

Definition df : list (@Roe.RoeRow Q) :=
  [ row "Alpha" 2019 (Some 7%Q); row "Beta" 2019 (Some 12%Q);
    row "Gamma" 2018 (Some 40%Q); row "Delta" 2019 (Some 75%Q);
    row "Eps" 2019 None; row "Zeta" 2019 (Some 9%Q);
    row "Eta" 2019 (Some (-3)%Q) ].

Definition geb : @Roe.RoeRow Q -> @Roe.RoeRow Q -> bool :=
  Analysis.roe_geb RoeSample.qgt.

Definition sort (l : list (@Roe.RoeRow Q)) : list (@Roe.RoeRow Q) :=
  @merge_sort _ (fun a b => geb a b = true) (fun a b => decide (geb a b = true)) l.

End AnalysisSample.

(** * Facts about the string helpers *)

Lemma lower_ascii_idem c : lower_ascii (lower_ascii c) = lower_ascii c.
Proof. destruct c as [[] [] [] [] [] [] [] []]; reflexivity. Qed.

Lemma lower_idem s : lower (lower s) = lower s.
Proof. induction s as [|c s IH]; simpl; [done|]. by rewrite lower_ascii_idem, IH. Qed.

Lemma lower_year : lower "year" = "year".
Proof. reflexivity. Qed.

Lemma string_eqb_decide (a b : string) : String.eqb a b = bool_decide (a = b).
Proof.
  destruct (String.eqb_spec a b) as [->|Hne].
  - by rewrite bool_decide_eq_true_2.
  - by rewrite bool_decide_eq_false_2.
Qed.

(** * Facts about records and frames *)

Lemma dict_get_zip_lookup (ks : list string) (row : list value) p k v :
  NoDup ks -> ks !! p = Some k -> row !! p = Some v ->
  dict_get k (zip ks row) = Some v.
Proof.
  intros Hnd. revert row p. induction Hnd as [|k0 ks Hnotin Hnd IH]; intros row p Hk Hv.
  - by rewrite lookup_nil in Hk.
  - destruct row as [|x row]; [by rewrite lookup_nil in Hv|].
    destruct p as [|p]; simpl in *.
    + simplify_eq. by rewrite String.eqb_refl.
    + rewrite string_eqb_decide. rewrite bool_decide_eq_false_2.
      * by apply (IH row p).
      * intros ->. apply Hnotin. by eapply list_elem_of_lookup_2.
Qed.

Lemma zip_fst_rectangular (ks : list string) (row : list value) :
  length row = length ks -> (zip ks row).*1 = ks.
Proof. intros H. apply fst_zip. lia. Qed.

Lemma of_records_rectangular recs : rectangular (Frame.of_records recs).
Proof.
  unfold rectangular, Frame.of_records; simpl.
  apply Forall_forall. intros row Hin.
  apply list_elem_of_In, in_map_iff in Hin as (r & <- & _).
  by rewrite length_map.
Qed.

Lemma set_column_rectangular n v df :
  rectangular df -> rectangular (Frame.set_column n v df).
Proof.
  unfold rectangular, Frame.set_column. intros Hwf.
  case_bool_decide; simpl; apply Forall_forall; intros row Hin;
    apply list_elem_of_In, in_map_iff in Hin as (r & <- & Hr);
    apply list_elem_of_In in Hr; rewrite Forall_forall in Hwf;
    specialize (Hwf r Hr).
  - rewrite length_zip_with. lia.
  - rewrite !length_app. simpl. lia.
Qed.

Lemma lower_columns_rectangular df :
  rectangular df -> rectangular (Frame.lower_columns df).
Proof. unfold rectangular, Frame.lower_columns; simpl. by rewrite length_map. Qed.

Lemma written_frame_rectangular y df :
  rectangular df -> rectangular (written_frame y df).
Proof. intros. by apply lower_columns_rectangular, set_column_rectangular. Qed.

Lemma set_column_has_label n v df : n ∈ columns (Frame.set_column n v df).
Proof.
  unfold Frame.set_column. case_bool_decide; simpl; [done|].
  apply elem_of_app. right. by apply list_elem_of_singleton.
Qed.

(** After [df[n] = v], every cell under a column labelled [n] is [v]. *)
Lemma set_column_cell n v df p row :
  rectangular df ->
  columns (Frame.set_column n v df) !! p = Some n ->
  row ∈ data (Frame.set_column n v df) ->
  row !! p = Some v.
Proof.
  unfold rectangular, Frame.set_column. intros Hwf.
  rewrite Forall_forall in Hwf.
  case_bool_decide as Hin; simpl; intros Hp Hrow;
    apply list_elem_of_In, in_map_iff in Hrow as (r & <- & Hr);
    apply list_elem_of_In in Hr; specialize (Hwf r Hr).
  - destruct (lookup_lt_is_Some_2 r p) as [x Hx].
    { rewrite Hwf. by eapply lookup_lt_Some. }
    rewrite lookup_zip_with, Hp; simpl. rewrite Hx; simpl.
    by rewrite String.eqb_refl.
  - destruct (decide (p < length (columns df))%nat) as [Hlt|Hge].
    + rewrite lookup_app_l in Hp by done.
      exfalso. apply Hin. by eapply list_elem_of_lookup_2.
    + assert (p = length (columns df)) as ->.
      { apply lookup_lt_Some in Hp. rewrite length_app in Hp. simpl in Hp. lia. }
      rewrite <- Hwf. by rewrite list_lookup_middle.
Qed.


Lemma written_frame_lowercase y df :
  Forall is_lowercase (columns (written_frame y df)).
Proof.
  unfold written_frame, Frame.lower_columns; simpl.
  apply Forall_forall. intros c Hc.
  apply list_elem_of_In, in_map_iff in Hc as (c0 & <- & _).
  apply lower_idem.
Qed.

(** The rows written for a file: each carries the frame's labels, and under
    [year] the year of the file. *)
Lemma written_records_year y df r :
  rectangular df ->
  NoDup (columns (written_frame y df)) ->
  r ∈ Frame.records (written_frame y df) ->
  r.*1 = columns (written_frame y df) /\ dict_get "year" r = Some (VInt y).
Proof.
  intros Hwf Hnd Hr.
  unfold Frame.records in Hr.
  apply list_elem_of_In, in_map_iff in Hr as (row & <- & Hrow).
  apply list_elem_of_In in Hrow.
  pose proof (written_frame_rectangular y df Hwf) as Hwf2.
  unfold rectangular in Hwf2. rewrite Forall_forall in Hwf2.
  split; [by apply zip_fst_rectangular, Hwf2|].
  destruct (list_elem_of_lookup_1 _ _ (set_column_has_label "year" (VInt y) df)) as [p Hp].
  apply (dict_get_zip_lookup _ _ p); [done| |].
  - unfold written_frame, Frame.lower_columns; simpl.
    by rewrite list_lookup_fmap, Hp.
  - by apply (set_column_cell "year" (VInt y) df).
Qed.

(** * Relations between stores *)

Lemma keeps_tables_refl st : keeps_tables st st.
Proof. by intros t sch. Qed.

Lemma keeps_tables_trans a b c : keeps_tables a b -> keeps_tables b c -> keeps_tables a c.
Proof. intros Hab Hbc t sch H. by apply Hbc, Hab. Qed.

Lemma adds_rows_refl P st : adds_rows P st st.
Proof. intros t. exists []. by rewrite app_nil_r. Qed.

Lemma adds_rows_trans P a b c : adds_rows P a b -> adds_rows P b c -> adds_rows P a c.
Proof.
  intros Hab Hbc t. destruct (Hab t) as (n1 & E1 & F1), (Hbc t) as (n2 & E2 & F2).
  exists (n1 ++ n2). split.
  - by rewrite E2, E1, app_assoc.
  - by apply Forall_app.
Qed.

Lemma adds_rows_weaken (P Q : string -> record -> Prop) a b :
  (forall t r, P t r -> Q t r) -> adds_rows P a b -> adds_rows Q a b.
Proof.
  intros HPQ Hab t. destruct (Hab t) as (n & E & F).
  exists n. split; [done|]. eapply Forall_impl; [exact F|]. apply HPQ.
Qed.

(** * How computations of the script treat the store *)

Section Lifting.

Variable R : gmap string Table -> gmap string Table -> Prop.
Hypothesis R_refl : forall st, R st st.
Hypothesis R_trans : forall a b c, R a b -> R b c -> R a c.

Lemma lifts_ret {A} (a : A) : lifts R (mret a).
Proof. intros s. apply R_refl. Qed.

Lemma lifts_print enc msg : lifts R (print enc msg).
Proof. intros s. unfold print. destruct (_ && _); apply R_refl. Qed.

Lemma lifts_bind {A B} (m : M A) (k : A -> M B) :
  lifts R m -> (forall a, lifts R (k a)) -> lifts R (m ≫= k).
Proof.
  intros Hm Hk s. unfold mbind, M_bind.
  specialize (Hm s). destruct (m s) as [[e|a] s']; simpl in *; [done|].
  eapply R_trans; [exact Hm|]. apply Hk.
Qed.

Lemma lifts_try (body : M unit) handler :
  lifts R body -> (forall e, lifts R (handler e)) -> lifts R (try_except body handler).
Proof.
  intros Hm Hk s. unfold try_except.
  specialize (Hm s). destruct (body s) as [[e|[]] s']; simpl in *; [|done].
  eapply R_trans; [exact Hm|]. apply Hk.
Qed.

Lemma lifts_for_each {A} (body : A -> M unit) (l : list A) :
  (forall x, x ∈ l -> lifts R (body x)) -> lifts R (for_each body l).
Proof.
  induction l as [|x l IH]; intros Hb; simpl.
  - apply lifts_ret.
  - apply lifts_bind.
    + apply Hb. by left.
    + intros _. apply IH. intros y Hy. apply Hb. by right.
Qed.

End Lifting.

(** * Facts about the write *)

Lemma table_schema_insert (st : gmap string Table) name tbl t :
  Sql.table_schema (<[name := tbl]> st) t =
  if decide (name = t) then Some (schema tbl) else Sql.table_schema st t.
Proof.
  unfold Sql.table_schema. rewrite lookup_insert. by case_decide.
Qed.

Lemma table_rows_insert (st : gmap string Table) name tbl t :
  Sql.table_rows (<[name := tbl]> st) t =
  if decide (name = t) then rows tbl else Sql.table_rows st t.
Proof.
  unfold Sql.table_rows. rewrite lookup_insert. by case_decide.
Qed.

Lemma row_count_rows st t : Sql.row_count st t = length (Sql.table_rows st t).
Proof. unfold Sql.row_count, Sql.table_rows. by destruct (st !! t). Qed.

Lemma inserted_rows fault df :
  exists k, (Sql.inserted fault df).1 = take k (Frame.records df).
Proof.
  destruct fault as [[e|k e]|]; simpl.
  - exists (length (Frame.records df)). by rewrite firstn_all.
  - by exists k.
  - exists (length (Frame.records df)). by rewrite firstn_all.
Qed.

Lemma inserted_elem fault df r :
  r ∈ (Sql.inserted fault df).1 -> r ∈ Frame.records df.
Proof.
  destruct (inserted_rows fault df) as [k ->]. intros Hr.
  rewrite <- (take_drop k (Frame.records df)). apply elem_of_app. by left.
Qed.

Lemma columns_known_refl cols : Sql.columns_known cols cols = true.
Proof.
  unfold Sql.columns_known. apply forallb_forall. intros c Hc.
  apply bool_decide_eq_true_2. apply list_elem_of_In, in_map. exact Hc.
Qed.

(** What a write does.  Either it raises and leaves the store as it was,
    or the store was open, the labels are distinct, the table is missing or
    has all the columns, and the table afterwards holds its former rows
    followed by the rows that were inserted, under the columns it had, or
    under the frame's if it is new; the call then raises only when the
    insert stopped at a row. *)
Lemma to_sql_cases o fault con name df st :
  (exists e, Sql.to_sql o fault con name df st = (inl e, st)) \/
  (o = true /\ NoDup (map lower (columns df)) /\
   (forall e, fault <> Some (RefusedWhole e)) /\
   (forall tbl, st !! lower name = Some tbl ->
                Sql.columns_known (columns df) (schema tbl) = true) /\
   Sql.to_sql o fault con name df st =
     (match (Sql.inserted fault df).2 with Some e => inl e | None => inr tt end,
      <[lower name :=
          {| schema := default (columns df) (Sql.table_schema st (lower name));
             rows := Sql.table_rows st (lower name) ++ (Sql.inserted fault df).1 |}]> st)).
Proof.
  unfold Sql.to_sql, Sql.table_schema, Sql.table_rows.
  destruct o; simpl; [|left; by eexists].
  destruct fault as [[e|k e]|]; [left; by eexists| |];
    (case_bool_decide as Hnd; simpl; [|left; by eexists]);
    (destruct (st !! lower name) as [tbl|] eqn:Etbl; simpl;
     [destruct (Sql.columns_known (columns df) (schema tbl)) eqn:Eknown;
      [|left; by eexists]|]);
    right; (split; [done|]); (split; [done|]); (split; [done|]);
    (split; [|done]); intros tbl' [= <-] || intros tbl' [=]; done.
Qed.

Lemma to_sql_keeps_tables o fault con name df st :
  keeps_tables st (Sql.to_sql o fault con name df st).2.
Proof.
  destruct (to_sql_cases o fault con name df st) as [[e ->]|(_ & _ & _ & _ & ->)]; simpl.
  - apply keeps_tables_refl.
  - intros t sch Ht. rewrite table_schema_insert. case_decide as E; [|done].
    subst t. by rewrite Ht.
Qed.

Lemma to_sql_adds_rows o fault con name df st :
  adds_rows (fun t r => t = lower name /\ NoDup (map lower (columns df)) /\
                        r ∈ Frame.records df)
            st (Sql.to_sql o fault con name df st).2.
Proof.
  destruct (to_sql_cases o fault con name df st) as [[e ->]|(_ & Hnd & _ & _ & ->)]; simpl.
  - apply adds_rows_refl.
  - intros t. rewrite table_rows_insert. case_decide as E; simpl.
    + subst t. eexists; split; [reflexivity|].
      apply Forall_forall. intros r Hr. split; [done|]. split; [done|].
      by eapply inserted_elem.
    + exists []. by rewrite app_nil_r.
Qed.

Lemma to_sql_other_tables o fault con name df st t :
  t <> lower name -> (Sql.to_sql o fault con name df st).2 !! t = st !! t.
Proof.
  intros Hne.
  destruct (to_sql_cases o fault con name df st) as [[e ->]|(_ & _ & _ & _ & ->)]; simpl;
    [done|]. by rewrite lookup_insert_ne.
Qed.

(** * The loader, step by step *)

(** Case analysis on whether the lines in sight can be printed. *)
Ltac split_prints :=
  repeat match goal with
         | |- context [stdout_encodes ?w ?m] =>
             let E := fresh "Eprint" in destruct (stdout_encodes w m) eqn:E; simpl
         end.

Section LoaderFacts.

Variable w : World.

(** What [file_body] is, with the frame it writes named. *)
Lemma file_body_eq year dir f :
  Loader.file_body w year dir f =
  (print (stdout_encodes w) (MReading f) ;;
   recs ← Loader.DBF w (path_join dir f) ;
   if Frame.empty (Frame.of_records recs) then print (stdout_encodes w) (MInfoEmpty f)
   else print (stdout_encodes w) (MLoading (lower (splitext f).1)) ;;
        Loader.to_sql w (written_frame year (Frame.of_records recs))
                      (lower (splitext f).1) Loader.engine).
Proof. reflexivity. Qed.

Lemma file_body_adds year dir f :
  lifts (adds_rows (ingested_from w year dir f)) (Loader.file_body w year dir f).
Proof.
  intros s. rewrite file_body_eq.
  unfold mbind, M_bind, print, Loader.DBF, Loader.to_sql; simpl.
  destruct (read_dbf w (path_join dir f)) as [recs|] eqn:Hread;
    [destruct (Frame.empty (Frame.of_records recs))|];
    split_prints; try apply adds_rows_refl.
  eapply adds_rows_weaken; [|apply to_sql_adds_rows].
  intros t r (-> & Hnd & Hr). exists recs.
  split; [done|]. split; [by rewrite lower_idem|]. split; [|done].
  by eapply NoDup_fmap_1.
Qed.

Lemma file_body_keeps year dir f :
  lifts keeps_tables (Loader.file_body w year dir f).
Proof.
  intros s. rewrite file_body_eq.
  unfold mbind, M_bind, print, Loader.DBF, Loader.to_sql; simpl.
  destruct (read_dbf w (path_join dir f)) as [recs|];
    [destruct (Frame.empty (Frame.of_records recs))|];
    split_prints; try apply keeps_tables_refl.
  apply to_sql_keeps_tables.
Qed.

(** A file writes to the table named after it and to no other. *)
Lemma file_body_other_tables year dir f t :
  t <> lower (splitext f).1 ->
  lifts (fun a b => b !! t = a !! t) (Loader.file_body w year dir f).
Proof.
  intros Hne s. rewrite file_body_eq.
  unfold mbind, M_bind, print, Loader.DBF, Loader.to_sql; simpl.
  destruct (read_dbf w (path_join dir f)) as [recs|];
    [destruct (Frame.empty (Frame.of_records recs))|];
    split_prints; try done.
  apply to_sql_other_tables. by rewrite lower_idem.
Qed.

End LoaderFacts.

Section LoaderLifting.

Variable w : World.
Variable R : gmap string Table -> gmap string Table -> Prop.
Hypothesis R_refl : forall st, R st st.
Hypothesis R_trans : forall a b c, R a b -> R b c -> R a c.

Lemma process_file_lifts year dir f :
  lifts R (Loader.file_body w year dir f) ->
  lifts R (Loader.process_file w year dir f).
Proof.
  intros H. apply lifts_try; [done|done|].
  intros e. by apply lifts_print.
Qed.

Lemma process_year_lifts year :
  (forall f, visited w year f ->
             lifts R (Loader.file_body w year (Loader.working_dir_of year) f)) ->
  lifts R (Loader.process_year w year).
Proof.
  intros Hfile. unfold Loader.process_year.
  apply lifts_bind; [done|by apply lifts_print|]. intros _.
  destruct (path_exists w _) eqn:Hex; simpl; [|by apply lifts_print].
  intros s. unfold mbind at 1, M_bind at 1. unfold Loader.os_listdir at 1.
  destruct (listdir w _) as [entries|] eqn:Hls; simpl; [|apply R_refl].
  revert s. change (lifts R
    (if Nat.eqb (length (List.filter Loader.is_dbf entries)) 0
     then print (stdout_encodes w) (MWarnNoDbf (Loader.working_dir_of year))
     else print (stdout_encodes w) (MFound (length (List.filter Loader.is_dbf entries))) ;;
          for_each (Loader.process_file w year (Loader.working_dir_of year))
                   (List.filter Loader.is_dbf entries) ;;
          print (stdout_encodes w) (MFinishedYear year))).
  destruct (Nat.eqb _ 0); [by apply lifts_print|].
  apply lifts_bind; [done|by apply lifts_print|]. intros _.
  apply lifts_bind; [done| |intros _; by apply lifts_print].
  apply lifts_for_each; [done|done|].
  intros f Hf. apply process_file_lifts, Hfile.
  split; [done|]. by exists entries.
Qed.

Lemma run_lifts years :
  (forall y, y ∈ years -> lifts R (Loader.process_year w y)) ->
  lifts R (Loader.run w years).
Proof.
  intros Hyear. unfold Loader.run.
  repeat (apply lifts_bind; [done|by apply lifts_print|]; intros _).
  apply lifts_bind; [done|by apply lifts_for_each|]. intros _.
  repeat (apply lifts_bind; [done|by apply lifts_print|]; intros _).
  by apply lifts_print.
Qed.

End LoaderLifting.

(** * Running again over a store that already has the tables *)

Lemma store_blind_tame {A} (m : M A) : store_blind m -> tame m.
Proof.
  intros Hm. split.
  - intros s. destruct (Hm s) as [-> _]. apply keeps_tables_refl.
  - intros a b _. destruct (Hm a) as [Ea Ha], (Hm b) as [Eb _].
    split; [apply Ha|]. intros t. rewrite Ea, Eb. lia.
Qed.

Lemma tame_ret {A} (a : A) : tame (mret a : M A).
Proof. by apply store_blind_tame. Qed.

Lemma tame_print enc msg : tame (print enc msg).
Proof.
  apply store_blind_tame. intros s. unfold print. by destruct (_ && _).
Qed.

Lemma tame_os_listdir w p : tame (Loader.os_listdir w p).
Proof.
  apply store_blind_tame. intros s. unfold Loader.os_listdir.
  by destruct (listdir w p).
Qed.

Lemma tame_DBF w p : tame (Loader.DBF w p).
Proof.
  apply store_blind_tame. intros s. unfold Loader.DBF.
  by destruct (read_dbf w p).
Qed.

Lemma tame_bind {A B} (m : M A) (k : A -> M B) :
  tame m -> (forall x, tame (k x)) -> tame (m ≫= k).
Proof.
  intros [Hm1 Hm2] Hk. split.
  - apply lifts_bind; [apply keeps_tables_trans|done|].
    intros x. apply Hk.
  - intros a b. unfold mbind, M_bind.
    pose proof (Hm2 a b) as Hab. pose proof (Hm1 b) as Hb.
    destruct (m a) as [[e|x] a'] eqn:Ea; simpl in *.
    + intros Hkeep. destruct (Hab Hkeep) as [Hr Hc].
      destruct (m b) as [[e'|x'] b']; simpl in *; [|discriminate Hr].
      injection Hr as ->. split; [done|]. apply Hc.
    + intros Hkeep. destruct (Hk x) as [Hk1 Hk2].
      destruct Hab as [Hr Hc].
      { eapply keeps_tables_trans; [apply (Hk1 a')|exact Hkeep]. }
      destruct (m b) as [[e'|x'] b']; simpl in *; [discriminate Hr|].
      injection Hr as ->.
      destruct (Hk2 a' b') as [Hr' Hc'].
      { eapply keeps_tables_trans; [exact Hkeep|exact Hb]. }
      split; [done|]. intros t. specialize (Hc t). specialize (Hc' t). lia.
Qed.

Lemma tame_try (body : M unit) handler :
  tame body -> (forall e, tame (handler e)) -> tame (try_except body handler).
Proof.
  intros [Hm1 Hm2] Hk. split.
  - apply lifts_try; [apply keeps_tables_trans|done|].
    intros x. apply Hk.
  - intros a b. unfold try_except.
    pose proof (Hm2 a b) as Hab. pose proof (Hm1 b) as Hb.
    destruct (body a) as [[e|[]] a'] eqn:Ea; simpl in *.
    + intros Hkeep. destruct (Hk e) as [Hk1 Hk2].
      destruct Hab as [Hr Hc].
      { eapply keeps_tables_trans; [apply (Hk1 a')|exact Hkeep]. }
      destruct (body b) as [[e'|[]] b']; simpl in *; [|discriminate Hr].
      injection Hr as ->.
      destruct (Hk2 a' b') as [Hr' Hc'].
      { eapply keeps_tables_trans; [exact Hkeep|exact Hb]. }
      split; [done|]. intros t. specialize (Hc t). specialize (Hc' t). lia.
    + intros Hkeep. destruct (Hab Hkeep) as [Hr Hc].
      destruct (body b) as [[e'|[]] b']; simpl in *; [discriminate Hr|].
      split; [done|]. apply Hc.
Qed.

Lemma tame_for_each {A} (body : A -> M unit) (l : list A) :
  (forall x, tame (body x)) -> tame (for_each body l).
Proof.
  intros Hb. induction l as [|x l IH]; simpl.
  - apply tame_ret.
  - apply tame_bind; [apply Hb|]. intros _. apply IH.
Qed.

Lemma to_sql_replays o fault con name df (a b : gmap string Table) :
  keeps_tables (Sql.to_sql o fault con name df a).2 b ->
  (Sql.to_sql o fault con name df b).1 = (Sql.to_sql o fault con name df a).1 /\
  forall t, (Sql.row_count (Sql.to_sql o fault con name df b).2 t + Sql.row_count a t =
             Sql.row_count (Sql.to_sql o fault con name df a).2 t + Sql.row_count b t)%nat.
Proof.
  unfold Sql.to_sql.
  destruct o; simpl; [|intros _; split; [done|intros; lia]].
  assert (Hgo : forall ins : list record * option exn,
    keeps_tables
      (if negb (bool_decide (NoDup (map lower (columns df))))
       then (inl (DuplicateColumnName name) : exn + unit, a)
       else match a !! lower name with
            | None => (match ins.2 with Some e => inl e | None => inr tt end,
                       <[lower name := {| schema := columns df; rows := [] ++ ins.1 |}]> a)
            | Some t =>
                if Sql.columns_known (columns df) (schema t)
                then (match ins.2 with Some e => inl e | None => inr tt end,
                      <[lower name := {| schema := schema t; rows := rows t ++ ins.1 |}]> a)
                else (inl (NoSuchColumn name), a)
            end).2 b ->
    let rb :=
      if negb (bool_decide (NoDup (map lower (columns df))))
      then (inl (DuplicateColumnName name) : exn + unit, b)
      else match b !! lower name with
           | None => (match ins.2 with Some e => inl e | None => inr tt end,
                      <[lower name := {| schema := columns df; rows := [] ++ ins.1 |}]> b)
           | Some t =>
               if Sql.columns_known (columns df) (schema t)
               then (match ins.2 with Some e => inl e | None => inr tt end,
                     <[lower name := {| schema := schema t; rows := rows t ++ ins.1 |}]> b)
               else (inl (NoSuchColumn name), b)
           end in
    let ra :=
      if negb (bool_decide (NoDup (map lower (columns df))))
      then (inl (DuplicateColumnName name) : exn + unit, a)
      else match a !! lower name with
           | None => (match ins.2 with Some e => inl e | None => inr tt end,
                      <[lower name := {| schema := columns df; rows := [] ++ ins.1 |}]> a)
           | Some t =>
               if Sql.columns_known (columns df) (schema t)
               then (match ins.2 with Some e => inl e | None => inr tt end,
                     <[lower name := {| schema := schema t; rows := rows t ++ ins.1 |}]> a)
               else (inl (NoSuchColumn name), a)
           end in
    rb.1 = ra.1 /\
    forall t, (Sql.row_count rb.2 t + Sql.row_count a t =
               Sql.row_count ra.2 t + Sql.row_count b t)%nat).
  { intros ins. simpl.
    case_bool_decide; simpl; [|intros _; split; [done|intros; lia]].
    destruct (a !! lower name) as [ta|] eqn:Eta.
    - destruct (Sql.columns_known (columns df) (schema ta)) eqn:Eknown; simpl; intros Hkeep.
      + specialize (Hkeep (lower name) (schema ta)).
        rewrite table_schema_insert, decide_True in Hkeep by done.
        specialize (Hkeep eq_refl). unfold Sql.table_schema in Hkeep.
        destruct (b !! lower name) as [tb|] eqn:Etb; simplify_eq/=.
        rewrite Hkeep, Eknown. simpl. split; [done|]. intros t.
        rewrite !row_count_rows, !table_rows_insert.
        case_decide; simpl; [|lia]. subst t.
        unfold Sql.table_rows. rewrite Eta, Etb, !length_app. lia.
      + specialize (Hkeep (lower name) (schema ta)).
        unfold Sql.table_schema in Hkeep. rewrite Eta in Hkeep.
        specialize (Hkeep eq_refl).
        destruct (b !! lower name) as [tb|] eqn:Etb; simplify_eq/=.
        rewrite Hkeep, Eknown. simpl. split; [done|]. intros; lia.
    - simpl. intros Hkeep.
      specialize (Hkeep (lower name) (columns df)).
      rewrite table_schema_insert, decide_True in Hkeep by done.
      specialize (Hkeep eq_refl). unfold Sql.table_schema in Hkeep.
      destruct (b !! lower name) as [tb|] eqn:Etb; simplify_eq/=.
      rewrite Hkeep, columns_known_refl. simpl. split; [done|]. intros t.
      rewrite !row_count_rows, !table_rows_insert.
      case_decide; simpl; [|lia]. subst t.
      unfold Sql.table_rows. rewrite Eta, Etb, !length_app. simpl. lia. }
  destruct fault as [[e|k e]|]; simpl; [intros _; split; [done|intros; lia]| |].
  - apply (Hgo (Sql.inserted (Some (FailsAfter k e)) df)).
  - apply (Hgo (Sql.inserted None df)).
Qed.

Lemma tame_to_sql w df name con : tame (Loader.to_sql w df name con).
Proof.
  split.
  - intros s. unfold Loader.to_sql; simpl. apply to_sql_keeps_tables.
  - intros a b. unfold Loader.to_sql; simpl. apply to_sql_replays.
Qed.

Lemma tame_file_body w year dir f : tame (Loader.file_body w year dir f).
Proof.
  rewrite file_body_eq.
  apply tame_bind; [apply tame_print|]. intros _.
  apply tame_bind; [apply tame_DBF|]. intros recs.
  destruct (Frame.empty _); [apply tame_print|].
  apply tame_bind; [apply tame_print|]. intros _.
  apply tame_to_sql.
Qed.

Lemma tame_process_file w year dir f : tame (Loader.process_file w year dir f).
Proof.
  apply tame_try; [apply tame_file_body|]. intros e. apply tame_print.
Qed.

Lemma tame_process_year w year : tame (Loader.process_year w year).
Proof.
  unfold Loader.process_year.
  apply tame_bind; [apply tame_print|]. intros _.
  destruct (negb _); [apply tame_print|].
  apply tame_bind; [apply tame_os_listdir|]. intros entries.
  destruct (Nat.eqb _ 0); [apply tame_print|].
  apply tame_bind; [apply tame_print|]. intros _.
  apply tame_bind; [|intros _; apply tame_print].
  apply tame_for_each. intros f. apply tame_process_file.
Qed.

Lemma tame_run w years : tame (Loader.run w years).
Proof.
  unfold Loader.run.
  repeat (apply tame_bind; [apply tame_print|]; intros _).
  apply tame_bind.
  - apply tame_for_each. intros y. apply tame_process_year.
  - intros _. repeat (apply tame_bind; [apply tame_print|]; intros _).
    apply tame_print.
Qed.

(** * The printed text does not steer the script *)

Lemma writer_ret {A} (a : A) : writer (mret a : M A).
Proof. intros st. exists (inr a), st, []. intros o. by rewrite app_nil_r. Qed.

Lemma writer_print enc msg : writer (print enc msg).
Proof.
  intros st. unfold print. destruct (_ && _).
  - exists (inl UnicodeEncodeError), st, []. intros o. by rewrite app_nil_r.
  - by exists (inr tt), st, [msg].
Qed.

Lemma writer_os_listdir w p : writer (Loader.os_listdir w p).
Proof.
  intros st. unfold Loader.os_listdir.
  destruct (listdir w p) as [l|]; [exists (inr l), st, []|exists (inl (OSError p)), st, []];
    intros o; by rewrite app_nil_r.
Qed.

Lemma writer_DBF w p : writer (Loader.DBF w p).
Proof.
  intros st. unfold Loader.DBF.
  destruct (read_dbf w p) as [l|]; [exists (inr l), st, []|exists (inl (DBFError p)), st, []];
    intros o; by rewrite app_nil_r.
Qed.

Lemma writer_to_sql w df name con : writer (Loader.to_sql w df name con).
Proof.
  intros st. unfold Loader.to_sql; simpl.
  destruct (Sql.to_sql _ _ _ _ _ _) as [r st'].
  exists r, st', []. intros o. by rewrite app_nil_r.
Qed.

Lemma writer_bind {A B} (m : M A) (k : A -> M B) :
  writer m -> (forall x, writer (k x)) -> writer (m ≫= k).
Proof.
  intros Hm Hk st. destruct (Hm st) as (r & d & msgs & Hr).
  destruct r as [e|x].
  - exists (inl e), d, msgs. intros o. unfold mbind, M_bind. by rewrite Hr.
  - destruct (Hk x d) as (r' & d' & msgs' & Hr').
    exists r', d', (msgs ++ msgs'). intros o. unfold mbind, M_bind.
    by rewrite Hr, Hr', app_assoc.
Qed.

Lemma writer_try (body : M unit) handler :
  writer body -> (forall e, writer (handler e)) -> writer (try_except body handler).
Proof.
  intros Hm Hk st. destruct (Hm st) as (r & d & msgs & Hr).
  destruct r as [e|[]].
  - destruct (Hk e d) as (r' & d' & msgs' & Hr').
    exists r', d', (msgs ++ msgs'). intros o. unfold try_except.
    by rewrite Hr, Hr', app_assoc.
  - exists (inr tt), d, msgs. intros o. unfold try_except. by rewrite Hr.
Qed.

Lemma writer_for_each {A} (body : A -> M unit) (l : list A) :
  (forall x, writer (body x)) -> writer (for_each body l).
Proof.
  intros Hb. induction l as [|x l IH]; simpl.
  - apply writer_ret.
  - apply writer_bind; [apply Hb|]. intros _. apply IH.
Qed.

Lemma writer_file_body w year dir f : writer (Loader.file_body w year dir f).
Proof.
  rewrite file_body_eq.
  apply writer_bind; [apply writer_print|]. intros _.
  apply writer_bind; [apply writer_DBF|]. intros recs.
  destruct (Frame.empty _); [apply writer_print|].
  apply writer_bind; [apply writer_print|]. intros _.
  apply writer_to_sql.
Qed.

Lemma writer_process_file w year dir f : writer (Loader.process_file w year dir f).
Proof.
  apply writer_try; [apply writer_file_body|]. intros e. apply writer_print.
Qed.

Lemma writer_process_year w year : writer (Loader.process_year w year).
Proof.
  unfold Loader.process_year.
  apply writer_bind; [apply writer_print|]. intros _.
  destruct (negb _); [apply writer_print|].
  apply writer_bind; [apply writer_os_listdir|]. intros entries.
  destruct (Nat.eqb _ 0); [apply writer_print|].
  apply writer_bind; [apply writer_print|]. intros _.
  apply writer_bind; [|intros _; apply writer_print].
  apply writer_for_each. intros f. apply writer_process_file.
Qed.

Lemma writer_run w years : writer (Loader.run w years).
Proof.
  unfold Loader.run.
  repeat (apply writer_bind; [apply writer_print|]; intros _).
  apply writer_bind.
  - apply writer_for_each. intros y. apply writer_process_year.
  - intros _. repeat (apply writer_bind; [apply writer_print|]; intros _).
    apply writer_print.
Qed.

(** Two starts from the same store end the same way in the same store. *)
Lemma writer_same_store {A} (m : M A) s1 s2 :
  writer m -> db s1 = db s2 ->
  (m s1).1 = (m s2).1 /\ db (m s1).2 = db (m s2).2.
Proof.
  intros Hm E. destruct (Hm (db s1)) as (r & d & msgs & Hr).
  destruct s1 as [d1 o1], s2 as [d2 o2]; simpl in *. subst d2.
  by rewrite !Hr.
Qed.


Lemma for_each_app {A} (body : A -> M unit) (l1 l2 : list A) s :
  for_each body (l1 ++ l2) s =
  match for_each body l1 s with
  | (inr _, s') => for_each body l2 s'
  | (inl e, s') => (inl e, s')
  end.
Proof.
  revert s. induction l1 as [|x l1 IH]; intros s; simpl; [done|].
  unfold mbind, M_bind. destruct (body x s) as [[e|[]] s']; [done|]. apply IH.
Qed.

(** Leaving out an element whose turn ends normally with the store
    untouched changes neither how the loop ends nor the store it leaves. *)
Lemma for_each_skip {A} (body : A -> M unit) (pre post : list A) x s :
  (forall y, writer (body y)) ->
  (let s1 := (for_each body pre s).2 in
   (body x s1).1 = inr tt /\ db (body x s1).2 = db s1) ->
  (for_each body (pre ++ x :: post) s).1 = (for_each body (pre ++ post) s).1 /\
  db (for_each body (pre ++ x :: post) s).2 = db (for_each body (pre ++ post) s).2.
Proof.
  intros Hw. simpl. rewrite !for_each_app.
  destruct (for_each body pre s) as [[e|[]] s1]; simpl; [done|].
  intros [Hr Hd]. unfold mbind, M_bind.
  destruct (body x s1) as [[e|[]] s2]; simpl in *; [discriminate Hr|].
  by apply writer_same_store; [apply writer_for_each|].
Qed.

(** * How the loops end *)


(** A file whose reports can be printed never ends the loop. *)
Lemma process_file_returns w year dir f s :
  (forall e, stdout_encodes w (MError f year e) = true) ->
  (Loader.process_file w year dir f s).1 = inr tt.
Proof.
  intros Hprint. unfold Loader.process_file, try_except.
  destruct (Loader.file_body w year dir f s) as [[e|[]] s']; [|done].
  unfold print. by rewrite Hprint.
Qed.



(** The script is its loop over the years between two runs of prints. *)
Lemma run_through_loop w years s :
  let r := for_each (Loader.process_year w) years
             {| db := db s;
                out := ((out s ++ [MStarting]) ++ [MSourceDirectory Loader.BASE_DATA_DIR]) ++
                       [MTargetDatabase Loader.DATABASE_FILE] |} in
  (Loader.run w years s).1 = r.1 /\ db (Loader.run w years s).2 = db r.2.
Proof.
  unfold Loader.run, mbind, M_bind, print; simpl.
  by destruct (for_each _ _ _) as [[e|[]] s'].
Qed.

(** * The claims *)





(** A write that raises at its second row: the first row stays in the
    table and the file is reported. *)
Example partial_write_is_kept_and_reported :
  let r := Loader.process_file Sample2.world_partial 2019 Sample.dir2019 "f1_1.dbf"
             start_state in
  r.1 = inr tt /\
  Sql.table_rows (db r.2) "f1_1" =
    [[("respondent", VInt 1); ("row_number", VInt 16); ("year", VInt 2019)]] /\
  out r.2 =
    [MReading "f1_1.dbf"; MLoading "f1_1";
     MError "f1_1.dbf" 2019
       (DataError "Python int too large to convert to SQLite INTEGER")].
Proof. vm_compute. repeat split. Qed.

(** A file whose name cannot be printed: the announcement raises inside
    the [try], the report of the handler raises outside it, and the run ends
    there, after the first file of 2019 and before the year 2020. *)
Example unprintable_name_ends_the_run :
  let r := Loader.main Sample2.world_console start_state in
  r.1 = inl UnicodeEncodeError /\
  Sql.row_count (db r.2) "f1_1" = 3%nat /\
  last (out r.2) = Some (MLoading "f1_1").
Proof. vm_compute. repeat split. Qed.



(** C6.  A year whose directory does not exist: the loader prints the
    warning for that year, ends the year normally with every table as it
    was, and the whole run ends in the same way and leaves the same store,
    hence the same row count in every table, as the run without that
    year. *)
Theorem missing_year_is_skipped w y pre post s :
  path_exists w (Loader.working_dir_of y) = false ->
  (forall s0, Loader.process_year w y s0 =
              (inr tt, {| db := db s0;
                          out := out s0 ++ [MProcessingYear y;
                                            MWarnDirNotFound y (Loader.working_dir_of y)] |})) /\
  (Loader.run w (pre ++ y :: post) s).1 = (Loader.run w (pre ++ post) s).1 /\
  db (Loader.run w (pre ++ y :: post) s).2 = db (Loader.run w (pre ++ post) s).2 /\
  (forall t, Sql.row_count (db (Loader.run w (pre ++ y :: post) s).2) t =
             Sql.row_count (db (Loader.run w (pre ++ post) s).2) t).
Proof.
  intros Hmissing.
  assert (Hone : forall s0, Loader.process_year w y s0 =
            (inr tt, {| db := db s0;
                        out := out s0 ++ [MProcessingYear y;
                                          MWarnDirNotFound y (Loader.working_dir_of y)] |})).
  { intros s0. unfold Loader.process_year, mbind, M_bind, print; simpl.
    rewrite Hmissing; simpl. by rewrite <- app_assoc. }
  split; [exact Hone|].
  assert (Hrun : (Loader.run w (pre ++ y :: post) s).1 = (Loader.run w (pre ++ post) s).1 /\
                 db (Loader.run w (pre ++ y :: post) s).2 = db (Loader.run w (pre ++ post) s).2).
  { destruct (run_through_loop w (pre ++ y :: post) s) as [-> ->].
    destruct (run_through_loop w (pre ++ post) s) as [-> ->].
    apply for_each_skip; [intros x; apply writer_process_year|].
    simpl. by rewrite Hone. }
  destruct Hrun as [Hr Hd]. repeat split; [done|done|].
  intros t. by rewrite Hd.
Qed.

Lemma missing_year_is_skipped_witness :
  (forall s0, Loader.process_year Sample.world 2018 s0 =
              (inr tt, {| db := db s0;
                          out := out s0 ++ [MProcessingYear 2018;
                                            MWarnDirNotFound 2018 (Loader.working_dir_of 2018)] |})) /\
  (Loader.run Sample.world ([] ++ 2018 :: [2019; 2020]) start_state).1 =
  (Loader.run Sample.world ([] ++ [2019; 2020]) start_state).1 /\
  db (Loader.run Sample.world ([] ++ 2018 :: [2019; 2020]) start_state).2 =
  db (Loader.run Sample.world ([] ++ [2019; 2020]) start_state).2 /\
  (forall t, Sql.row_count (db (Loader.run Sample.world ([] ++ 2018 :: [2019; 2020]) start_state).2) t =
             Sql.row_count (db (Loader.run Sample.world ([] ++ [2019; 2020]) start_state).2) t).
Proof.
  apply (missing_year_is_skipped Sample.world 2018 [] [2019; 2020] start_state).
  vm_compute. reflexivity.
Defined.

Lemma run_never_truncates w years s0 :
  adds_rows (fun _ _ => True) (db s0) (db (Loader.run w years s0).2).
Proof.
  revert s0. apply run_lifts; [apply adds_rows_refl|apply adds_rows_trans|].
  intros y _. apply process_year_lifts; [apply adds_rows_refl|apply adds_rows_trans|].
  intros f _ s1. eapply adds_rows_weaken; [|apply file_body_adds]. done.
Qed.

(** When a write returns: the store can be opened, no row is refused, no
    two columns of the frame share a name, and the table, when it exists,
    has every column of the frame. *)
Lemma to_sql_returns o fault con name df st :
  (Sql.to_sql o fault con name df st).1 = inr tt <->
  o = true /\ fault = None /\ NoDup (map lower (columns df)) /\
  (forall tbl, st !! lower name = Some tbl ->
               Sql.columns_known (columns df) (schema tbl) = true).
Proof.
  unfold Sql.to_sql.
  destruct o; simpl; [|split; [discriminate|intros [? _]; discriminate]].
  destruct fault as [[e|k e]|]; simpl;
    [split; [discriminate|intros (_ & ? & _); discriminate]| |].
  - split; [|intros (_ & ? & _); discriminate].
    case_bool_decide; simpl; [|discriminate].
    destruct (st !! lower name) as [tbl|]; [|discriminate].
    destruct (Sql.columns_known _ _); discriminate.
  - case_bool_decide as Hnd; simpl; [|split; [discriminate|intros (_ & _ & ? & _); done]].
    destruct (st !! lower name) as [tbl|] eqn:Etbl; simpl.
    + destruct (Sql.columns_known (columns df) (schema tbl)) eqn:Eknown; simpl.
      * split; [intros _|done]. repeat split; [done|]. by intros tbl' [= <-].
      * split; [discriminate|]. intros (_ & _ & _ & Hk).
        specialize (Hk tbl eq_refl). congruence.
    + split; [intros _|done]. repeat split; [done|]. intros tbl' Hx. discriminate Hx.
Qed.

(** C8.  Every write creates the table or appends to it.  Whatever the
    write of lines 84-89 does, every table that existed still exists with
    the same columns, every other table is untouched, and table [name]
    holds its former rows, in place, followed by leading rows of the frame.
    The write returns exactly when the store can be opened, no row is
    refused, no two columns of the frame share a name and the table, if it
    exists, has every column of the frame; it then leaves the table with its
    former rows followed by all rows of the frame, under the columns of the
    frame when the table is new.  A file of the loop changes no table
    other than the one named after it.  From the start to the end of a
    whole run no table is dropped and none is truncated. *)
Theorem writes_create_or_append w df name con s :
  keeps_tables (db s) (db (Loader.to_sql w df name con s).2) /\
  (forall t, t <> lower name -> db (Loader.to_sql w df name con s).2 !! t = db s !! t) /\
  (exists new,
     Sql.table_rows (db (Loader.to_sql w df name con s).2) (lower name) =
     Sql.table_rows (db s) (lower name) ++ new /\
     new `prefix_of` Frame.records df) /\
  ((Loader.to_sql w df name con s).1 = inr tt <->
   store_openable w = true /\ insert_fault w name df = None /\
   NoDup (map lower (columns df)) /\
   (forall tbl, db s !! lower name = Some tbl ->
                Sql.columns_known (columns df) (schema tbl) = true)) /\
  ((Loader.to_sql w df name con s).1 = inr tt ->
   Sql.table_rows (db (Loader.to_sql w df name con s).2) (lower name) =
   Sql.table_rows (db s) (lower name) ++ Frame.records df /\
   Sql.table_schema (db (Loader.to_sql w df name con s).2) (lower name) =
   Some (default (columns df) (Sql.table_schema (db s) (lower name)))) /\
  (forall y dir f s1 t,
     t <> lower (splitext f).1 ->
     db (Loader.process_file w y dir f s1).2 !! t = db s1 !! t) /\
  (forall years s0,
     keeps_tables (db s0) (db (Loader.run w years s0).2) /\
     adds_rows (fun _ _ => True) (db s0) (db (Loader.run w years s0).2)).
Proof.
  unfold Loader.to_sql; simpl.
  split; [apply to_sql_keeps_tables|].
  split; [intros t Ht; by apply to_sql_other_tables|].
  split; [|split; [apply to_sql_returns|split; [|split]]].
  - destruct (to_sql_cases (store_openable w) (insert_fault w name df) con name df (db s))
      as [[e ->]|(_ & _ & _ & _ & ->)]; simpl.
    + exists []. split; [by rewrite app_nil_r|apply prefix_nil].
    + eexists. split; [by rewrite table_rows_insert, decide_True|].
      unfold Sql.inserted. destruct (insert_fault w name df) as [[e|k e]|]; simpl;
        [done|by exists (drop k (Frame.records df)); rewrite take_drop|done].
  - intros Hret. pose proof Hret as Hok.
    apply to_sql_returns in Hok as (_ & Hfault & _).
    destruct (to_sql_cases (store_openable w) (insert_fault w name df) con name df (db s))
      as [[e He]|(_ & _ & _ & _ & He)]; rewrite He in *; simpl in *; [discriminate Hret|].
    rewrite table_rows_insert, table_schema_insert, !decide_True by done.
    by rewrite Hfault.
  - intros y dir f s1 t Ht. revert s1.
    apply (process_file_lifts w (fun a b => b !! t = a !! t)); [done|congruence|].
    by apply file_body_other_tables.
  - intros years s0. split; [apply tame_run|apply run_never_truncates].
Qed.

(** C2.  Every record that a run adds to a table [t] comes from a legacy
    file [f] visited in the directory of some year [y] of the run, where
    [t] is the table named after [f]; its [year] field is [y], it has one
    field per name, and every one of its field names is in lower case. *)
Theorem ingested_records_are_tagged w years s t :
  exists new,
    Sql.table_rows (db (Loader.run w years s).2) t = Sql.table_rows (db s) t ++ new /\
    Forall (fun r => exists y f,
              y ∈ years /\ visited w y f /\
              ingested_from w y (Loader.working_dir_of y) f t r /\
              dict_get "year" r = Some (VInt y) /\
              NoDup r.*1 /\
              Forall is_lowercase r.*1) new.
Proof.
  revert t.
  change (adds_rows (fun t r => exists y f,
              y ∈ years /\ visited w y f /\
              ingested_from w y (Loader.working_dir_of y) f t r /\
              dict_get "year" r = Some (VInt y) /\
              NoDup r.*1 /\
              Forall is_lowercase r.*1) (db s) (db (Loader.run w years s).2)).
  revert s. apply run_lifts; [apply adds_rows_refl|apply adds_rows_trans|].
  intros y Hy. apply process_year_lifts; [apply adds_rows_refl|apply adds_rows_trans|].
  intros f Hf s. eapply adds_rows_weaken; [|apply file_body_adds].
  intros t r Hin. exists y, f. split; [done|]. split; [done|]. split; [done|].
  destruct Hin as (recs & _ & _ & Hnd & Hr).
  destruct (written_records_year y _ r (of_records_rectangular recs) Hnd Hr) as [Hk Hyear].
  split; [done|]. rewrite Hk. split; [done|]. apply written_frame_lowercase.
Qed.

(** C4.  Running the loader a second time over the same years and the same
    files adds to every table as many rows as the first run added; starting
    from an empty store, every table has twice as many rows after the
    second run as after the first. *)
Theorem rerun_doubles_row_counts w years t :
  (forall s0,
     (Sql.row_count (db (Loader.run w years
                           (next_invocation (Loader.run w years s0).2)).2) t
      + Sql.row_count (db s0) t =
      2 * Sql.row_count (db (Loader.run w years s0).2) t)%nat) /\
  Sql.row_count (db (Loader.run w years
                       (next_invocation (Loader.run w years start_state).2)).2) t =
  (2 * Sql.row_count (db (Loader.run w years start_state).2) t)%nat.
Proof.
  assert (H : forall s0,
     (Sql.row_count (db (Loader.run w years
                           (next_invocation (Loader.run w years s0).2)).2) t
      + Sql.row_count (db s0) t =
      2 * Sql.row_count (db (Loader.run w years s0).2) t)%nat).
  { intros s0. destruct (tame_run w years) as [_ Hreplay].
    destruct (Hreplay s0 (next_invocation (Loader.run w years s0).2)) as [_ Hc].
    { apply keeps_tables_refl. }
    specialize (Hc t). simpl in Hc. lia. }
  split; [exact H|].
  specialize (H start_state). simpl in H.
  unfold Sql.row_count at 2 in H. rewrite lookup_empty in H. lia.
Qed.

(** * The two normalisations *)

Lemma zip_with_tag_lower y (cols : list string) (row : list value) :
  (forall c, c ∈ cols -> lower c = "year" -> c = "year") ->
  zip_with (fun c x => if String.eqb c "year" then VInt y else x) (map lower cols) row =
  zip_with (fun c x => if String.eqb c "year" then VInt y else x) cols row.
Proof.
  revert row. induction cols as [|c cols IH]; intros row Hc; [done|].
  destruct row as [|x row]; [done|]. simpl. f_equal.
  - rewrite !string_eqb_decide.
    destruct (decide (c = "year")) as [->|Hne].
    + by rewrite !bool_decide_eq_true_2.
    + rewrite (bool_decide_eq_false_2 (c = "year")) by done.
      rewrite bool_decide_eq_false_2; [done|].
      intros Hl. apply Hne, Hc; [by left|done].
  - apply IH. intros c' Hc'. apply Hc. by right.
Qed.

Lemma year_in_lowered (cols : list string) :
  (forall c, c ∈ cols -> lower c = "year" -> c = "year") ->
  "year" ∈ map lower cols <-> "year" ∈ cols.
Proof.
  intros Hc. split.
  - intros Hin. apply list_elem_of_In, in_map_iff in Hin as (c & Hl & Hin).
    apply list_elem_of_In in Hin. by rewrite <- (Hc c Hin Hl).
  - intros Hin. apply list_elem_of_In, in_map_iff. exists "year".
    split; [reflexivity|by apply list_elem_of_In].
Qed.

(** C5, as amended.  When no field name other than [year] itself becomes
    [year] in lower case, tagging then lowering and lowering then tagging
    give the same frame. *)
Theorem tag_and_lower_commute y df :
  (forall c, c ∈ columns df -> lower c = "year" -> c = "year") ->
  written_frame y df = lowered_then_tagged y df.
Proof.
  intros Hc. unfold written_frame, lowered_then_tagged, Frame.set_column, Frame.lower_columns.
  simpl. pose proof (year_in_lowered (columns df) Hc) as Hiff.
  destruct (decide ("year" ∈ columns df)) as [Hin|Hnin].
  - rewrite !bool_decide_eq_true_2 by tauto. simpl. f_equal.
    apply map_ext_in. intros row _. symmetry. by apply zip_with_tag_lower.
  - rewrite !bool_decide_eq_false_2 by tauto. simpl. f_equal.
    by rewrite map_app.
Qed.

Lemma tag_and_lower_commute_witness :
  written_frame 2019 (Frame.of_records Sample.lower_year) =
  lowered_then_tagged 2019 (Frame.of_records Sample.lower_year).
Proof.
  apply (tag_and_lower_commute 2019 (Frame.of_records Sample.lower_year)).
  intros c Hc Hl.
  assert (Hcols : columns (Frame.of_records Sample.lower_year) = ["ID"; "year"])
    by (vm_compute; reflexivity).
  rewrite Hcols in Hc.
  apply elem_of_cons in Hc as [->|Hc]; [vm_compute in Hl; discriminate Hl|].
  apply elem_of_cons in Hc as [->|Hc]; [reflexivity|].
  by apply elem_of_nil in Hc.
Defined.

(** C5 fails as stated: for a file with a field [YEAR], tagging first
    leaves two columns named [year], lowering first leaves one. *)
Lemma tag_and_lower_do_not_commute :
  written_frame 2019 (Frame.of_records Sample.upper_year) <>
  lowered_then_tagged 2019 (Frame.of_records Sample.upper_year).
Proof. vm_compute. discriminate. Qed.

Example written_frame_upper_year :
  written_frame 2019 (Frame.of_records Sample.upper_year) =
  {| columns := ["id"; "year"; "year"];
     data := [[VInt 1; VInt 1999; VInt 2019]; [VInt 2; VInt 2000; VInt 2019]] |}.
Proof. reflexivity. Qed.

Example lowered_then_tagged_upper_year :
  lowered_then_tagged 2019 (Frame.of_records Sample.upper_year) =
  {| columns := ["id"; "year"]; data := [[VInt 1; VInt 2019]; [VInt 2; VInt 2019]] |}.
Proof. reflexivity. Qed.

(** * A source field called year *)









(** * A store that cannot be opened *)

Lemma file_body_locked w y dir f :
  store_openable w = false ->
  lifts (fun a b => b = a) (Loader.file_body w y dir f).
Proof.
  intros Hlocked s. rewrite file_body_eq.
  unfold mbind, M_bind, print, Loader.DBF; simpl.
  split_prints; try done;
    (destruct (read_dbf w _) as [recs|]; simpl; [|done]);
    (destruct (Frame.empty _); simpl; split_prints; try done);
    unfold Loader.to_sql, Sql.to_sql; simpl; by rewrite Hlocked.
Qed.

(** With a store that cannot be opened a run writes nothing, and each file
    that reaches the write is reported with the error of the store. *)
Lemma locked_store_writes_nothing w years s :
  store_openable w = false ->
  db (Loader.run w years s).2 = db s /\
  (forall y dir f recs s0,
     read_dbf w (path_join dir f) = Some recs ->
     Frame.empty (Frame.of_records recs) = false ->
     stdout_encodes w (MReading f) = true ->
     stdout_encodes w (MLoading (lower (splitext f).1)) = true ->
     stdout_encodes w (MError f y (StoreUnavailable Loader.db_uri)) = true ->
     Loader.process_file w y dir f s0 =
     (inr tt, {| db := db s0;
                 out := out s0 ++ [MReading f; MLoading (lower (splitext f).1);
                                   MError f y (StoreUnavailable Loader.db_uri)] |})).
Proof.
  intros Hlocked. split.
  - revert s. apply (run_lifts w (fun a b => b = a)); [done|congruence|].
    intros y _. apply process_year_lifts; [done|congruence|].
    intros f _. by apply file_body_locked.
  - intros y dir f recs s0 Hread Hne Hp1 Hp2 Hp3.
    unfold Loader.process_file, try_except. rewrite file_body_eq.
    unfold mbind, M_bind, print, Loader.DBF; simpl. rewrite Hp1; simpl.
    rewrite Hread; simpl. rewrite Hne; simpl. rewrite Hp2; simpl.
    unfold Loader.to_sql, Sql.to_sql; simpl. rewrite Hlocked; simpl.
    rewrite Hp3; simpl. by rewrite <- !app_assoc.
Qed.

(** C3.  With a store that cannot be opened the run over the three
    configured years does not abort.  [create_engine] does not connect;
    the first connection is made by the write, inside the [try] of its
    file.  The run reports one error for each file it tried to write, goes
    on through the remaining files and years, prints that the transfer is
    complete and ends normally, with nothing written. *)
Theorem locked_store_does_not_abort :
  store_openable Sample.world_locked = false /\
  Loader.main Sample.world_locked start_state =
  (inr tt,
   {| db := ∅;
      out := [MStarting; MSourceDirectory Loader.BASE_DATA_DIR;
              MTargetDatabase Loader.DATABASE_FILE;
              MProcessingYear 2018; MWarnDirNotFound 2018 (Loader.working_dir_of 2018);
              MProcessingYear 2019; MFound 3;
              MReading "f1_1.dbf"; MLoading "f1_1";
              MError "f1_1.dbf" 2019 (StoreUnavailable Loader.db_uri);
              MReading "BROKEN.DBF";
              MError "BROKEN.DBF" 2019 (DBFError (path_join Sample.dir2019 "BROKEN.DBF"));
              MReading "f1_2.dbf"; MInfoEmpty "f1_2.dbf";
              MFinishedYear 2019;
              MProcessingYear 2020; MFound 1;
              MReading "F1_1.DBF"; MLoading "f1_1";
              MError "F1_1.DBF" 2020 (StoreUnavailable Loader.db_uri);
              MFinishedYear 2020;
              MRule; MComplete; MTotalTime; MDataIn Loader.DATABASE_FILE; MRule] |}).
Proof. split; [reflexivity|]. vm_compute. reflexivity. Qed.

(** The scenario of the specification: three records for 2019 and two for
    2020 under one file name give one table of five rows, and ten after a
    second run. *)
Example two_years_one_table :
  Sql.row_count (db (Loader.main Sample.world start_state).2) "f1_1" = 5%nat /\
  Sql.row_count (db (Loader.main Sample.world
                       (next_invocation (Loader.main Sample.world start_state).2)).2) "f1_1"
    = 10%nat /\
  map (dict_get "year") (Sql.table_rows (db (Loader.main Sample.world start_state).2) "f1_1")
    = [Some (VInt 2019); Some (VInt 2019); Some (VInt 2019); Some (VInt 2020); Some (VInt 2020)].
Proof. vm_compute. repeat split. Qed.

(** * Facts about the ROE query *)

Section RoeFacts.

Context {num : Type}.
Variables (zero hundred : num).
Variable gt : num -> num -> bool.
Variables (div mul : num -> num -> option num).

Lemma insert_sorted_elem (x y : Roe.RoeRow) (l : list (@Roe.RoeRow num)) :
  y ∈ Roe.insert_sorted x l <-> y = x \/ y ∈ l.
Proof.
  induction l as [|z l IH]; simpl.
  - rewrite list_elem_of_singleton, elem_of_nil. tauto.
  - destruct (Roe.row_leb x z).
    + by rewrite elem_of_cons.
    + rewrite !elem_of_cons, IH. tauto.
Qed.

Lemma order_by_elem (y : Roe.RoeRow) (l : list (@Roe.RoeRow num)) :
  y ∈ Roe.order_by l <-> y ∈ l.
Proof.
  induction l as [|z l IH]; simpl; [done|].
  rewrite insert_sorted_elem, elem_of_cons, IH. tauto.
Qed.

Lemma roe_query_elem (row : Roe.RoeRow) lagged :
  row ∈ Roe.roe_query zero hundred gt div mul lagged <->
  exists r, r ∈ lagged /\
            is_Some (Roe.roe_expression zero hundred gt div mul r) /\
            row = Roe.select_row zero hundred gt div mul r.
Proof.
  unfold Roe.roe_query. rewrite order_by_elem. split.
  - intros H. apply list_elem_of_In, in_map_iff in H as (r & <- & Hr).
    apply filter_In in Hr as [Hr Hsome]. apply bool_decide_eq_true_1 in Hsome.
    exists r. by rewrite list_elem_of_In.
  - intros (r & Hr & Hsome & ->). apply list_elem_of_In, in_map.
    apply filter_In. split; [by apply list_elem_of_In|by apply bool_decide_eq_true_2].
Qed.

(** C10.  Every row of the result of the ROE query has a total equity
    that is greater than zero and a return on equity that is not NULL and
    equals [(net_income / total_equity) * 100]; and a row of [LaggedEquity]
    whose total equity is not greater than zero gets NULL from the CASE and
    is not in the result. *)
Theorem roe_rows_have_positive_equity (lagged : list (@Roe.LaggedEquityRow num)) :
  Forall (fun row =>
            Roe.sql_gt gt (Roe.total_equity (Roe.source row)) (Some zero) = Some true /\
            Roe.return_on_equity_pct row =
              Roe.sql_mul mul
                (Roe.sql_div div (Roe.net_income (Roe.source row))
                                 (Roe.total_equity (Roe.source row)))
                (Some hundred) /\
            is_Some (Roe.return_on_equity_pct row))
         (Roe.roe_query zero hundred gt div mul lagged) /\
  Forall (fun r =>
            Roe.sql_gt gt (Roe.total_equity r) (Some zero) <> Some true ->
            Roe.roe_expression zero hundred gt div mul r = None /\
            forall row, row ∈ Roe.roe_query zero hundred gt div mul lagged ->
                        Roe.source row <> r)
         lagged.
Proof.
  split.
  - apply Forall_forall. intros row (r & _ & Hsome & ->)%roe_query_elem. simpl.
    unfold Roe.roe_expression, Roe.case_when in *.
    destruct (Roe.sql_gt gt (Roe.total_equity r) (Some zero)) as [[]|];
      [done|by destruct Hsome|by destruct Hsome].
  - apply Forall_forall. intros r _ Hnot.
    assert (Hnull : Roe.roe_expression zero hundred gt div mul r = None).
    { unfold Roe.roe_expression, Roe.case_when.
      by destruct (Roe.sql_gt gt (Roe.total_equity r) (Some zero)) as [[]|]. }
    split; [done|].
    intros row (r' & _ & Hsome & ->)%roe_query_elem. simpl. intros ->.
    rewrite Hnull in Hsome. by destruct Hsome.
Qed.

End RoeFacts.

Example roe_query_sample :
  map (fun row => (Roe.respondent_name (Roe.source row), Roe.year (Roe.source row),
                   Roe.return_on_equity_pct row))
      (Roe.roe_query 0%Q 100%Q RoeSample.qgt RoeSample.qdiv RoeSample.qmul RoeSample.lagged) =
  [ (VText "Beta Power", VInt 2018, Some 30%Q);
    (VText "Beta Power", VInt 2019, Some 5%Q) ].
Proof. vm_compute. reflexivity. Qed.

(** * Further behaviour of the loader *)

(** X1.  A year whose directory exists but holds no file ending in .dbf:
    the loader prints the warning for the directory, ends the year normally
    without the closing message of the year, leaves every table as it was,
    and the whole run ends in the same way and in the same store as the
    run without that year. *)
Theorem year_without_dbf_files_is_skipped w y entries pre post s :
  path_exists w (Loader.working_dir_of y) = true ->
  listdir w (Loader.working_dir_of y) = Some entries ->
  List.filter Loader.is_dbf entries = [] ->
  (forall s0, Loader.process_year w y s0 =
              (inr tt, {| db := db s0;
                          out := out s0 ++ [MProcessingYear y;
                                            MWarnNoDbf (Loader.working_dir_of y)] |})) /\
  (Loader.run w (pre ++ y :: post) s).1 = (Loader.run w (pre ++ post) s).1 /\
  db (Loader.run w (pre ++ y :: post) s).2 = db (Loader.run w (pre ++ post) s).2.
Proof.
  intros Hex Hls Hnone.
  assert (Hone : forall s0, Loader.process_year w y s0 =
            (inr tt, {| db := db s0;
                        out := out s0 ++ [MProcessingYear y;
                                          MWarnNoDbf (Loader.working_dir_of y)] |})).
  { intros s0. unfold Loader.process_year, mbind, M_bind, print, Loader.os_listdir; simpl.
    rewrite Hex, Hls; simpl. rewrite Hnone; simpl. by rewrite <- app_assoc. }
  split; [exact Hone|].
  destruct (run_through_loop w (pre ++ y :: post) s) as [-> ->].
  destruct (run_through_loop w (pre ++ post) s) as [-> ->].
  apply for_each_skip; [intros x; apply writer_process_year|].
  simpl. by rewrite Hone.
Qed.

Lemma year_without_dbf_files_is_skipped_witness :
  (forall s0, Loader.process_year Sample2.world 2021 s0 =
              (inr tt, {| db := db s0;
                          out := out s0 ++ [MProcessingYear 2021;
                                            MWarnNoDbf (Loader.working_dir_of 2021)] |})) /\
  (Loader.run Sample2.world ([2019] ++ 2021 :: [2020]) start_state).1 =
  (Loader.run Sample2.world ([2019] ++ [2020]) start_state).1 /\
  db (Loader.run Sample2.world ([2019] ++ 2021 :: [2020]) start_state).2 =
  db (Loader.run Sample2.world ([2019] ++ [2020]) start_state).2.
Proof.
  apply (year_without_dbf_files_is_skipped Sample2.world 2021
           ["readme.txt"; "f1_1.dbf.bak"] [2019] [2020] start_state).
  - vm_compute. reflexivity.
  - vm_compute. reflexivity.
  - vm_compute. reflexivity.
Defined.

(** X2.  A year whose directory exists but cannot be listed: [os.listdir]
    is outside the [try], so its exception ends the whole run.  When the
    years before it went through, the run ends with that exception, the
    last thing printed is the heading of that year, so neither the later
    years nor the closing summary are reached, and the store is the one
    the earlier years left. *)
Theorem unlistable_directory_aborts_run w y pre post s :
  path_exists w (Loader.working_dir_of y) = true ->
  listdir w (Loader.working_dir_of y) = None ->
  (Loader.run w pre s).1 = inr tt ->
  (Loader.run w (pre ++ y :: post) s).1 = inl (OSError (Loader.working_dir_of y)) /\
  last (out (Loader.run w (pre ++ y :: post) s).2) = Some (MProcessingYear y) /\
  db (Loader.run w (pre ++ y :: post) s).2 = db (Loader.run w pre s).2.
Proof.
  intros Hex Hls Hpre.
  destruct (run_through_loop w pre s) as [Hr Hd]. simpl in Hr, Hd.
  rewrite Hr in Hpre. rewrite Hd. clear Hr Hd.
  unfold Loader.run at 1 2 3. unfold mbind, M_bind, print; simpl.
  rewrite for_each_app.
  destruct (for_each (Loader.process_year w) pre _) as [[e|[]] s1]; simpl in *;
    [discriminate Hpre|].
  unfold mbind, M_bind.
  assert (Hy : Loader.process_year w y s1 =
               (inl (OSError (Loader.working_dir_of y)),
                {| db := db s1; out := out s1 ++ [MProcessingYear y] |})).
  { unfold Loader.process_year, mbind, M_bind, print, Loader.os_listdir; simpl.
    by rewrite Hex, Hls. }
  rewrite Hy; simpl. split; [done|]. split; [|done].
  by rewrite last_snoc.
Qed.

Lemma unlistable_directory_aborts_run_witness :
  (Loader.run Sample2.world ([2019] ++ 2022 :: [2020]) start_state).1 =
    inl (OSError (Loader.working_dir_of 2022)) /\
  last (out (Loader.run Sample2.world ([2019] ++ 2022 :: [2020]) start_state).2) =
    Some (MProcessingYear 2022) /\
  db (Loader.run Sample2.world ([2019] ++ 2022 :: [2020]) start_state).2 =
  db (Loader.run Sample2.world [2019] start_state).2.
Proof.
  apply (unlistable_directory_aborts_run Sample2.world 2022 [2019] [2020] start_state).
  - vm_compute. reflexivity.
  - vm_compute. reflexivity.
  - vm_compute. reflexivity.
Defined.

(** X3.  Runs compose: when a run over the years [ys1] goes through, a
    later invocation over [ys2] ends in the same way and leaves the same
    store as a single run over [ys1] followed by [ys2]. *)
Theorem runs_compose w ys1 ys2 s :
  (Loader.run w ys1 s).1 = inr tt ->
  (Loader.run w (ys1 ++ ys2) s).1 =
  (Loader.run w ys2 (next_invocation (Loader.run w ys1 s).2)).1 /\
  db (Loader.run w (ys1 ++ ys2) s).2 =
  db (Loader.run w ys2 (next_invocation (Loader.run w ys1 s).2)).2.
Proof.
  intros Hfirst.
  destruct (run_through_loop w ys1 s) as [Hr1 Hd1]. simpl in Hr1, Hd1.
  rewrite Hr1 in Hfirst.
  destruct (run_through_loop w (ys1 ++ ys2) s) as [-> ->].
  destruct (run_through_loop w ys2 (next_invocation (Loader.run w ys1 s).2)) as [-> ->].
  simpl. rewrite for_each_app. rewrite Hd1.
  destruct (for_each (Loader.process_year w) ys1 _) as [[e|[]] s1]; simpl in *;
    [discriminate Hfirst|].
  apply writer_same_store; [|done].
  apply writer_for_each. intros x. apply writer_process_year.
Qed.

Lemma runs_compose_witness :
  (Loader.run Sample.world ([2018; 2019] ++ [2020]) start_state).1 =
  (Loader.run Sample.world [2020]
     (next_invocation (Loader.run Sample.world [2018; 2019] start_state).2)).1 /\
  db (Loader.run Sample.world ([2018; 2019] ++ [2020]) start_state).2 =
  db (Loader.run Sample.world [2020]
        (next_invocation (Loader.run Sample.world [2018; 2019] start_state).2)).2.
Proof.
  apply (runs_compose Sample.world [2018; 2019] [2020] start_state).
  vm_compute. reflexivity.
Defined.



Lemma lowercase_map_lower (l : list string) :
  Forall is_lowercase l -> map lower l = l.
Proof. induction 1 as [|c l Hc _ IH]; simpl; [done|]. by rewrite Hc, IH. Qed.

Lemma file_body_keeps_shape w y dir f :
  lifts (fun a b => loader_store a -> loader_store b) (Loader.file_body w y dir f).
Proof.
  intros s Hinv. rewrite file_body_eq. unfold mbind, M_bind, print, Loader.DBF; simpl.
  destruct (read_dbf w _) as [recs|];
    [destruct (Frame.empty (Frame.of_records recs))|];
    split_prints; try done.
  unfold Loader.to_sql; simpl.
  pose proof (written_frame_lowercase y (Frame.of_records recs)) as Hlower.
  assert (Hyear : "year" ∈ columns (written_frame y (Frame.of_records recs))).
  { unfold written_frame, Frame.lower_columns; simpl.
    apply list_elem_of_In, in_map_iff. exists "year". split; [reflexivity|].
    apply list_elem_of_In, set_column_has_label. }
  destruct (to_sql_cases (store_openable w)
              (insert_fault w (lower (splitext f).1) (written_frame y (Frame.of_records recs)))
              Loader.engine (lower (splitext f).1)
              (written_frame y (Frame.of_records recs)) (db s))
    as [[e ->]|(_ & Hnd & _ & Hknown & ->)]; simpl; [done|].
  rewrite (lowercase_map_lower _ Hlower) in Hnd.
  assert (Hrows : Forall (fun r => r.*1 = columns (written_frame y (Frame.of_records recs)) /\
                                   dict_get "year" r = Some (VInt y))
                         (Sql.inserted
                            (insert_fault w (lower (splitext f).1)
                               (written_frame y (Frame.of_records recs)))
                            (written_frame y (Frame.of_records recs))).1).
  { apply Forall_forall. intros r Hr. apply inserted_elem in Hr.
    by apply (written_records_year y _ r (of_records_rectangular recs)). }
  remember (Sql.inserted _ _).1 as news eqn:Enews. clear Enews.
  change (map lower (columns (Frame.set_column "year" (VInt y) (Frame.of_records recs))))
    with (columns (written_frame y (Frame.of_records recs))).
  remember (written_frame y (Frame.of_records recs)) as df eqn:Edf. clear Edf.
  rewrite lower_idem in *.
  intros t tbl Ht. rewrite lookup_insert in Ht. case_decide as Et; [|by apply Hinv].
  injection Ht as <-. subst t.
  unfold Sql.table_schema, Sql.table_rows.
  destruct (db s !! lower (splitext f).1) as [old|] eqn:Eold; simpl.
  - destruct (Hinv _ _ Eold) as (Hname & Hy & Hnd' & Hlow & Hold).
    split; [done|]. split; [done|]. split; [done|]. split; [done|]. simpl.
    apply Forall_app. split; [done|].
    eapply Forall_impl; [exact Hrows|]. intros r [-> Hry]. split; [|by exists y].
    intros c Hc. specialize (Hknown old eq_refl). unfold Sql.columns_known in Hknown.
    rewrite forallb_forall in Hknown.
    specialize (Hknown c). rewrite <- list_elem_of_In in Hknown.
    specialize (Hknown Hc). apply bool_decide_eq_true in Hknown.
    rewrite (lowercase_map_lower _ Hlow) in Hknown.
    rewrite Forall_forall in Hlower. by rewrite (Hlower c Hc) in Hknown.
  - split; [apply lower_idem|]. split; [done|]. split; [done|].
    split; [done|]. simpl.
    eapply Forall_impl; [exact Hrows|]. intros r [-> Hry]. split; [done|by exists y].
Qed.

(** X5.  The shape of the store is kept by a run: when every table has
    a name in lower case, a [year] column, distinct lower-case column names
    and rows with an integer [year] over columns of the table, the same is
    true after the run.  An empty store has that shape, so every store that
    only the loader has written has it. *)
Theorem run_keeps_store_shape w years s :
  loader_store (db s) -> loader_store (db (Loader.run w years s).2).
Proof.
  revert s.
  apply (run_lifts w (fun a b => loader_store a -> loader_store b)); [done|auto|].
  intros y _. apply process_year_lifts; [done|auto|].
  intros f _. apply file_body_keeps_shape.
Qed.

Lemma run_keeps_store_shape_witness :
  loader_store (db (Loader.run Sample.world [2018; 2019; 2020] start_state).2).
Proof.
  apply (run_keeps_store_shape Sample.world [2018; 2019; 2020] start_state).
  intros t tbl Ht. simpl in Ht. by rewrite lookup_empty in Ht.
Defined.

(** * Names of files and tables *)

Lemma lower_app a b : lower (a +:+ b) = lower a +:+ lower b.
Proof. induction a as [|c a IH]; simpl; [done|]. by rewrite IH. Qed.

Lemma rev_app_app a b acc : String.rev_app (a +:+ b) acc = String.rev_app b (String.rev_app a acc).
Proof. revert acc. induction a as [|c a IH]; intros acc; simpl; [done|]. apply IH. Qed.

Lemma rfind_from_app c s1 s2 i last :
  rfind_from c (s1 +:+ s2) i last =
  rfind_from c s2 (i + Z.of_nat (String.length s1)) (rfind_from c s1 i last).
Proof.
  revert i last. induction s1 as [|a s1 IH]; intros i last; simpl.
  - by rewrite Z.add_0_r.
  - rewrite IH. f_equal. lia.
Qed.

Lemma substring_app_prefix s1 s2 :
  String.substring 0 (String.length s1) (s1 +:+ s2) = s1.
Proof. induction s1 as [|a s1 IH]; simpl; [by destruct s2|]. by rewrite IH. Qed.

Lemma substring_app_suffix s1 s2 n :
  String.substring (String.length s1) n (s1 +:+ s2) = String.substring 0 n s2.
Proof. induction s1 as [|a s1 IH]; simpl; [done|]. apply IH. Qed.

Lemma substring_all s : String.substring 0 (String.length s) s = s.
Proof. induction s as [|a s IH]; simpl; [done|]. by rewrite IH. Qed.

Lemma dbf_extension_cases ext :
  lower ext = ".dbf" ->
  ext ∈ [".dbf"; ".dbF"; ".dBf"; ".dBF"; ".Dbf"; ".DbF"; ".DBf"; ".DBF"].
Proof.
  destruct ext as [|c0 [|c1 [|c2 [|c3 [|c4 ext]]]]]; try discriminate.
  simpl. intros [= H0 H1 H2 H3].
  assert (c0 = "."%char) as ->.
  { destruct c0 as [[] [] [] [] [] [] [] []]; try discriminate H0; reflexivity. }
  assert (c1 = "d"%char \/ c1 = "D"%char) as Hc1.
  { destruct c1 as [[] [] [] [] [] [] [] []]; try discriminate H1; auto. }
  assert (c2 = "b"%char \/ c2 = "B"%char) as Hc2.
  { destruct c2 as [[] [] [] [] [] [] [] []]; try discriminate H2; auto. }
  assert (c3 = "f"%char \/ c3 = "F"%char) as Hc3.
  { destruct c3 as [[] [] [] [] [] [] [] []]; try discriminate H3; auto. }
  destruct Hc1 as [-> | ->], Hc2 as [-> | ->], Hc3 as [-> | ->];
    repeat (first [by left | right]).
Qed.

Lemma append_cons x a b : String x a +:+ b = String x (a +:+ b).
Proof. reflexivity. Qed.

Lemma append_assoc a b c : (a +:+ b) +:+ c = a +:+ (b +:+ c).
Proof. induction a as [|x a IH]; [done|]. by rewrite !append_cons, IH. Qed.

Lemma length_append a b :
  String.length (a +:+ b) = (String.length a + String.length b)%nat.
Proof. induction a as [|x a IH]; [done|]. rewrite append_cons. simpl. by rewrite IH. Qed.

Lemma rev_app_acc a acc : String.rev_app a acc = String.rev_app a "" +:+ acc.
Proof.
  revert acc. induction a as [|c a IH]; intros acc; simpl; [done|].
  rewrite (IH (String c acc)), (IH (String c "")).
  by rewrite append_assoc.
Qed.

Lemma prefix_app p s : String.prefix p (p +:+ s) = true.
Proof.
  induction p as [|c p IH]; [by destruct s|].
  rewrite append_cons. simpl. by destruct (ascii_dec c c).
Qed.

(** X6.  The table of a legacy file.  For a listed name made of a stem
    without path separators and an extension that is [.dbf] in any letter
    case, the file is selected for loading, and [os.path.splitext] cuts the
    extension off unless the stem is empty or made of dots only, in which
    case the whole name is kept.  So the table is named after the stem in
    lower case, and names that differ only in letter case share a table. *)
Theorem dbf_file_table_name stem ext :
  lower ext = ".dbf" ->
  rfind "\" stem = -1 -> rfind "/" stem = -1 ->
  Loader.is_dbf (stem +:+ ext) = true /\
  splitext (stem +:+ ext) =
    (if all_dots stem then (stem +:+ ext, "") else (stem, ext)) /\
  lower (splitext (stem +:+ ext)).1 =
    (if all_dots stem then lower stem +:+ ".dbf" else lower stem).
Proof.
  intros Hl Hbs Hsl.
  assert (Hdbf : Loader.is_dbf (stem +:+ ext) = true).
  { unfold Loader.is_dbf, endswith. rewrite lower_app, Hl.
    unfold String.rev. rewrite rev_app_app.
    rewrite (rev_app_acc ".dbf" (String.rev_app (lower stem) "")). apply prefix_app. }
  assert (Hsplit : splitext (stem +:+ ext) =
            (if all_dots stem then (stem +:+ ext, "") else (stem, ext))).
  { unfold rfind in Hbs, Hsl.
    pose proof (dbf_extension_cases ext Hl) as Hcases.
    assert (Hsep : Z.max (rfind "\" (stem +:+ ext)) (rfind "/" (stem +:+ ext)) = -1).
    { unfold rfind. rewrite !rfind_from_app, Hbs, Hsl.
      repeat (apply elem_of_cons in Hcases as [->|Hcases]; [reflexivity|]).
      by apply elem_of_nil in Hcases. }
    assert (Hdot : rfind "." (stem +:+ ext) = Z.of_nat (String.length stem)).
    { unfold rfind. rewrite rfind_from_app.
      repeat (apply elem_of_cons in Hcases as [->|Hcases]; [reflexivity|]).
      by apply elem_of_nil in Hcases. }
    unfold splitext. rewrite Hsep, Hdot. unfold slice, slice_from.
    replace (Z.to_nat (-1 + 1)) with 0%nat by lia.
    replace (Z.to_nat (Z.of_nat (String.length stem) - (-1 + 1)))
      with (String.length stem) by lia.
    replace (Z.to_nat (Z.of_nat (String.length stem) - 0))
      with (String.length stem) by lia.
    rewrite Nat2Z.id.
    rewrite substring_app_prefix, substring_app_suffix.
    replace (-1 <? Z.of_nat (String.length stem)) with true
      by (symmetry; apply Z.ltb_lt; lia).
    destruct (all_dots stem); simpl; [done|].
    f_equal; [apply substring_app_prefix|].
    rewrite length_append.
    replace (String.length stem + String.length ext - String.length stem)%nat
      with (String.length ext) by lia.
    apply substring_all. }
  split; [done|]. split; [done|]. rewrite Hsplit.
  destruct (all_dots stem); simpl; [|done]. by rewrite lower_app, Hl.
Qed.

Lemma dbf_file_table_name_witness :
  Loader.is_dbf ("F1_1" +:+ ".DBF") = true /\
  splitext ("F1_1" +:+ ".DBF") =
    (if all_dots "F1_1" then ("F1_1" +:+ ".DBF", "") else ("F1_1", ".DBF")) /\
  lower (splitext ("F1_1" +:+ ".DBF")).1 =
    (if all_dots "F1_1" then lower "F1_1" +:+ ".dbf" else lower "F1_1").
Proof.
  apply (dbf_file_table_name "F1_1" ".DBF"); vm_compute; reflexivity.
Defined.

(** * The companies that [show_top_performers] prints *)

Section TopPerformersFacts.

Context {num : Type}.
Variables (zero fifty : num).
Variable gt : num -> num -> bool.
Variable sort_values_desc : list (@Roe.RoeRow num) -> list (@Roe.RoeRow num).

(** [>=] on the numbers is transitive, and the sort returns its input in
    descending order of ROE. *)
Hypothesis ge_trans : forall x y z, gt y x = false -> gt z y = false -> gt z x = false.
Hypothesis sort_permutes : forall l, sort_values_desc l ≡ₚ l.
Hypothesis sort_sorts :
  forall l, Sorted (fun a b => Analysis.roe_geb gt a b = true) (sort_values_desc l).




End TopPerformersFacts.







(** On the sample rows the two best companies of 2019 are printed: the
    row above 50, the negative row, the row without a value and the row of
    another year are left out. *)
Example show_top_performers_sample :
  Analysis.show_top_performers 0%Q 50%Q RoeSample.qgt AnalysisSample.sort
    AnalysisSample.df 2019 2 =
  [Analysis.PTopHeader 2 2019;
   Analysis.PTable [(VText "Beta", Some 12%Q); (VText "Zeta", Some 9%Q)]].
Proof. vm_compute. reflexivity. Qed.

(** * The files that a year reads *)

Lemma files_read_app a b : files_read (a ++ b) = files_read a ++ files_read b.
Proof. unfold files_read. apply flat_map_app. Qed.

Lemma process_file_reads w y dir f s :
  stdout_encodes w (MReading f) = true ->
  (forall e, stdout_encodes w (MError f y e) = true) ->
  (Loader.process_file w y dir f s).1 = inr tt /\
  exists msgs, out (Loader.process_file w y dir f s).2 = out s ++ msgs /\
               files_read msgs = [f].
Proof.
  intros Hp1 Hp3. split; [by apply process_file_returns|].
  unfold Loader.process_file, try_except. rewrite file_body_eq.
  unfold mbind, M_bind, print, Loader.DBF; simpl. rewrite Hp1; simpl.
  destruct (read_dbf w _) as [recs|]; simpl.
  - destruct (Frame.empty _); simpl.
    + destruct (stdout_encodes w (MInfoEmpty f)); simpl.
      * exists [MReading f; MInfoEmpty f]. by rewrite <- app_assoc.
      * rewrite Hp3; simpl. exists [MReading f; MError f y UnicodeEncodeError].
        by rewrite <- app_assoc.
    + destruct (stdout_encodes w (MLoading _)); simpl.
      * unfold Loader.to_sql; simpl.
        destruct (Sql.to_sql _ _ _ _ _ _) as [[e|[]] st']; simpl.
        -- rewrite Hp3; simpl.
           exists [MReading f; MLoading (lower (splitext f).1); MError f y e].
           by rewrite <- !app_assoc.
        -- exists [MReading f; MLoading (lower (splitext f).1)]. by rewrite <- app_assoc.
      * rewrite Hp3; simpl. exists [MReading f; MError f y UnicodeEncodeError].
        by rewrite <- app_assoc.
  - rewrite Hp3; simpl. exists [MReading f; MError f y (DBFError (path_join dir f))].
    by rewrite <- app_assoc.
Qed.

Lemma file_loop_reads w y dir files s :
  (forall g e, g ∈ files ->
     stdout_encodes w (MReading g) = true /\ stdout_encodes w (MError g y e) = true) ->
  (for_each (Loader.process_file w y dir) files s).1 = inr tt /\
  exists msgs,
    out (for_each (Loader.process_file w y dir) files s).2 = out s ++ msgs /\
    files_read msgs = files.
Proof.
  revert s. induction files as [|f files IH]; intros s Hprint; simpl.
  - split; [done|]. exists []. by rewrite app_nil_r.
  - unfold mbind, M_bind.
    destruct (process_file_reads w y dir f s) as (Hret & m1 & Hout1 & Hread1);
      [apply (Hprint f UnicodeEncodeError); by left
      |intros e; apply (Hprint f e); by left|].
    destruct (Loader.process_file w y dir f s) as [[e|[]] s1]; simpl in *;
      [discriminate Hret|].
    destruct (IH s1) as (Hret2 & m2 & Hout2 & Hread2).
    { intros g e Hg. apply Hprint. by right. }
    split; [done|]. exists (m1 ++ m2). split.
    + by rewrite Hout2, Hout1, app_assoc.
    + by rewrite files_read_app, Hread1, Hread2.
Qed.

(** X9.  In a year whose directory can be listed, when the announcement
    and the error report of each selected file can be printed, the loader
    reads each listed file whose name ends in .dbf, in any letter case,
    exactly once and in the order of the listing, reads no other file, and
    ends the year normally, whatever else happens to the single files. *)
Theorem year_reads_each_dbf_file_once w y entries s :
  path_exists w (Loader.working_dir_of y) = true ->
  listdir w (Loader.working_dir_of y) = Some entries ->
  (forall g e, g ∈ List.filter Loader.is_dbf entries ->
     stdout_encodes w (MReading g) = true /\ stdout_encodes w (MError g y e) = true) ->
  (Loader.process_year w y s).1 = inr tt /\
  exists msgs,
    out (Loader.process_year w y s).2 = out s ++ msgs /\
    files_read msgs = List.filter Loader.is_dbf entries.
Proof.
  intros Hex Hls Hprint.
  unfold Loader.process_year, mbind, M_bind, print, Loader.os_listdir; simpl.
  rewrite Hex, Hls; simpl.
  destruct (List.filter Loader.is_dbf entries) as [|f files] eqn:Efiles.
  - simpl. split; [done|].
    exists [MProcessingYear y; MWarnNoDbf (Loader.working_dir_of y)].
    by rewrite <- app_assoc.
  - cbn [length Nat.eqb].
    match goal with |- context [for_each ?b ?l ?s0] =>
      destruct (file_loop_reads w y (Loader.working_dir_of y) l s0 Hprint)
        as (Hret & msgs & Hout & Hread);
      destruct (for_each b l s0) as [[e|[]] s1] end; simpl in *; [discriminate Hret|].
    split; [done|].
    exists ([MProcessingYear y; MFound (S (length files))] ++ msgs ++ [MFinishedYear y]).
    split.
    + rewrite Hout. by rewrite <- !app_assoc.
    + rewrite !files_read_app, Hread. simpl. by rewrite app_nil_r.
Qed.

Lemma year_reads_each_dbf_file_once_witness :
  (Loader.process_year Sample.world 2019 start_state).1 = inr tt /\
  exists msgs,
    out (Loader.process_year Sample.world 2019 start_state).2 = out start_state ++ msgs /\
    files_read msgs =
    List.filter Loader.is_dbf ["f1_1.dbf"; "BROKEN.DBF"; "notes.txt"; "f1_2.dbf"].
Proof.
  apply (year_reads_each_dbf_file_once Sample.world 2019
           ["f1_1.dbf"; "BROKEN.DBF"; "notes.txt"; "f1_2.dbf"] start_state).
  - vm_compute. reflexivity.
  - vm_compute. reflexivity.
  - intros g e _. split; reflexivity.
Defined.
